(** * scripts/update_apps_tags.py: tag resolution and manifest writing

    A shallow embedding of [get_latest_tag] and [main], together with the
    parts of the Python runtime they call: [str] methods, the [re] fragment
    that [TAG_PATTERN] uses, [packaging.version.Version] on the strings the
    pattern lets through, [json.dumps] with [indent=2] and
    [Path.write_text].

    Conventions.
    - A Python [str] is a list of Unicode code points, each a [Z].
      [lit] turns an ASCII literal of the source into such a list.
    - The character classes are those of CPython 3.11 (Unicode 14.0):
      [\d] is the category Nd, [\s] and [str.strip] use the Unicode
      white-space set, [str.splitlines] the Unicode line boundaries.
    - Python [int]s are unbounded and modelled by [Z]. The interpreter runs
      with its defaults: [int()] raises [ValueError] on a literal of more
      than 4300 digits ([sys.int_info.default_max_str_digits]).
    - [packaging] compares versions by a key whose release part has its
      trailing zeros removed; the model keeps that key, and the proofs
      relate it to the order on (major, minor, patch).
    - Files are written as on POSIX: a line feed stays a line feed. A
      path holds a regular file, which the process may or may not open
      for writing, or a directory.
    - Exceptions are values of [exn]; a computation that may raise lives in
      the [result] monad, and [main], which also writes a file, threads the
      file system besides. *)

From Stdlib Require Import ZArith List Lia Bool Ascii String.
From Stdlib Require Strings.Byte DecimalPos DecimalFacts.
From stdpp Require Import base option list strings gmap.
Import ListNotations.
Local Open Scope Z_scope.

(** ** Characters and strings *)

Abbreviation char := Z (only parsing).
Abbreviation str := (list Z) (only parsing).

Definition ord (a : ascii) : Z := Z.of_N (N_of_ascii a).

Fixpoint lit (s : string) : list Z :=
  match s with
  | EmptyString => []
  | String a s' => ord a :: lit s'
  end.

Module Unicode.

(** Code point of the digit zero of every Nd block; the ten digits of a
    block are contiguous and in increasing order of value. *)
Definition Nd_zeros : list Z :=
  [48; 1632; 1776; 1984; 2406; 2534; 2662; 2790; 2918; 3046; 3174; 3302;
   3430; 3558; 3664; 3792; 3872; 4160; 4240; 6112; 6160; 6470; 6608; 6784;
   6800; 6992; 7088; 7232; 7248; 42528; 43216; 43264; 43472; 43504; 43600;
   44016; 65296; 66720; 68912; 69734; 69872; 69942; 70096; 70384; 70736;
   70864; 71248; 71360; 71472; 71904; 72016; 72784; 73040; 73120; 92768;
   92864; 93008; 120782; 120792; 120802; 120812; 120822; 123200; 123632;
   125264; 130032].

Definition in_block (c z : Z) : bool := (z <=? c) && (c <? z + 10).

(** [unicodedata.decimal]: the value of a decimal digit. *)
Definition decimal (c : Z) : option Z :=
  match List.find (in_block c) Nd_zeros with
  | Some z => Some (c - z)
  | None => None
  end.

(** [\d] of [re] on [str] patterns, and what [int()] accepts as a digit. *)
Definition isdecimal (c : Z) : bool :=
  match decimal c with Some _ => true | None => false end.

(** [[0-9]]. *)
Definition is_ascii_digit (c : Z) : bool := (48 <=? c) && (c <=? 57).

(** [str.isspace] on one character; also [\s] of [re]. *)
Definition isspace (c : Z) : bool :=
  ((9 <=? c) && (c <=? 13)) || ((28 <=? c) && (c <=? 32))
  || (c =? 133) || (c =? 160) || (c =? 5760)
  || ((8192 <=? c) && (c <=? 8202))
  || (c =? 8232) || (c =? 8233) || (c =? 8239) || (c =? 8287)
  || (c =? 12288).

(** Line boundaries of [str.splitlines]. *)
Definition islinebreak (c : Z) : bool :=
  ((10 <=? c) && (c <=? 13)) || ((28 <=? c) && (c <=? 30))
  || (c =? 133) || (c =? 8232) || (c =? 8233).

End Unicode.

Module PyStr.

Fixpoint drop_while (p : Z -> bool) (s : list Z) : list Z :=
  match s with
  | c :: s' => if p c then drop_while p s' else s
  | [] => []
  end.

Fixpoint take_while (p : Z -> bool) (s : list Z) : list Z :=
  match s with
  | c :: s' => if p c then c :: take_while p s' else []
  | [] => []
  end.

Fixpoint eqb (a b : list Z) : bool :=
  match a, b with
  | [], [] => true
  | x :: a', y :: b' => (x =? y) && eqb a' b'
  | _, _ => false
  end.

(** [s.startswith(p)]. *)
Fixpoint startswith (s p : list Z) {struct p} : bool :=
  match p, s with
  | [], _ => true
  | x :: p', c :: s' => (x =? c) && startswith s' p'
  | _ :: _, [] => false
  end.

(** [s.endswith(p)]. *)
Definition endswith (s p : list Z) : bool := startswith (rev s) (rev p).

(** [s.strip()]: white space removed at both ends. *)
Definition lstrip_ws (s : list Z) : list Z := drop_while Unicode.isspace s.
Definition rstrip_ws (s : list Z) : list Z :=
  rev (drop_while Unicode.isspace (rev s)).
Definition strip (s : list Z) : list Z := rstrip_ws (lstrip_ws s).

(** [s.lstrip(chars)]: leading characters that occur in [chars] removed. *)
Definition lstrip (chars s : list Z) : list Z :=
  drop_while (fun c => existsb (Z.eqb c) chars) s.

(** [s.splitlines()]. [cur] holds the characters of the line being read,
    last one first. A carriage return directly followed by a line feed is
    one boundary; a final line is reported only when it is not empty. *)
Fixpoint splitlines_from (cur s : list Z) : list (list Z) :=
  match s with
  | [] => match cur with [] => [] | _ => [rev cur] end
  | c :: s' =>
      if Unicode.islinebreak c then
        rev cur ::
          match s' with
          | d :: s'' =>
              if (c =? 13) && (d =? 10) then splitlines_from [] s''
              else splitlines_from [] s'
          | [] => splitlines_from [] s'
          end
      else splitlines_from (c :: cur) s'
  end.

Definition splitlines (s : list Z) : list (list Z) := splitlines_from [] s.

(** [s.split(sep)] for a separator of one character. *)
Fixpoint split (sep : Z) (s : list Z) : list (list Z) :=
  match s with
  | [] => [[]]
  | c :: s' =>
      if c =? sep then [] :: split sep s'
      else match split sep s' with
           | p :: ps => (c :: p) :: ps
           | [] => [[c]]
           end
  end.

(** [s.replace(old, new)] for a non-empty [old]: occurrences are found
    from left to right and do not overlap. [skip] counts the characters
    of a found occurrence that remain to be passed over. *)
Fixpoint replace_from (old new : list Z) (skip : nat) (s : list Z) : list Z :=
  match s with
  | [] => []
  | c :: s' =>
      match skip with
      | S k => replace_from old new k s'
      | O =>
          if startswith s old
          then new ++ replace_from old new (Nat.pred (length old)) s'
          else c :: replace_from old new 0 s'
      end
  end.

Definition replace (old new s : list Z) : list Z := replace_from old new 0 s.

(** [sep.join(parts)]. *)
Fixpoint join (sep : list Z) (parts : list (list Z)) : list Z :=
  match parts with
  | [] => []
  | [p] => p
  | p :: ps => p ++ sep ++ join sep ps
  end.

(** Number of occurrences of a character. *)
Definition count (c : Z) (s : list Z) : nat :=
  length (List.filter (Z.eqb c) s).

(** [old in s]. *)
Fixpoint contains (s old : list Z) : bool :=
  startswith s old || match s with _ :: s' => contains s' old | [] => false end.

End PyStr.

(** ** The fragment of [re] the script uses *)

Module Re.

Inductive atom :=
| Chr (c : char)      (* an escaped or plain literal character *)
| Digit.              (* \d *)

Inductive item :=
| One (a : atom)
| Plus (a : atom)     (* a+, greedy *)
| Dollar.             (* $ without MULTILINE *)

Definition accepts (a : atom) (c : char) : bool :=
  match a with
  | Chr x => c =? x
  | Digit => Unicode.isdecimal c
  end.

(** [many a k s]: as many [a] as possible, then [k]; one [a] is given
    back at a time while [k] fails. The result is what is left of the
    subject after the match. *)
Fixpoint many (a : atom) (k : str -> option str) (s : str) : option str :=
  match s with
  | c :: s' =>
      if accepts a c then
        match many a k s' with
        | Some r => Some r
        | None => k s
        end
      else k s
  | [] => k s
  end.

Fixpoint exec (r : list item) (s : str) : option str :=
  match r with
  | [] => Some s
  | One a :: r' =>
      match s with
      | c :: s' => if accepts a c then exec r' s' else None
      | [] => None
      end
  | Plus a :: r' =>
      match s with
      | c :: s' => if accepts a c then many a (exec r') s' else None
      | [] => None
      end
  | Dollar :: r' =>
      match s with
      | [] => exec r' s
      | [c] => if c =? 10 then exec r' s else None
      | _ => None
      end
  end.

(** [pattern.match(s)] as a truth value: a match at the start of [s]. *)
Definition matches (r : list item) (s : str) : bool :=
  match exec r s with Some _ => true | None => false end.

(** [re.search(pattern, s)]: the text of the leftmost match. *)
Fixpoint search (r : list item) (s : str) : option str :=
  match exec r s with
  | Some rest => Some (take (length s - length rest)%nat s)
  | None => match s with _ :: s' => search r s' | [] => None end
  end.

End Re.

(** ** Exceptions *)

Inductive subprocess_error :=
| CalledProcessError (returncode : Z)
| FileNotFoundError
| UnicodeDecodeError.

Inductive os_error :=
| IsADirectoryError
| PermissionError.

Inductive exn :=
| SubprocessError (e : subprocess_error)
| OSError (e : os_error)
| ValueError
| InvalidVersion
| UnicodeEncodeError.

Inductive result (A : Type) :=
| Ok (a : A)
| Raise (e : exn).
Arguments Ok {A} a.
Arguments Raise {A} e.

#[global] Instance result_ret : MRet result := @Ok.
#[global] Instance result_bind : MBind result :=
  fun A B f m => match m with Ok a => f a | Raise e => Raise e end.

(** The number that a run of decimal digits writes, most significant
    digit first. *)
Definition digits_value (s : str) : Z :=
  fold_left (fun n c => 10 * n + default 0 (Unicode.decimal c)) s 0.

(** [sys.int_info.default_max_str_digits] *)
Definition int_max_str_digits : Z := 4300.

(** [int(s)] on a run of decimal digits: [ValueError] when the run is
    longer than the interpreter allows, leading zeros included. *)
Definition int_of_digits (s : str) : result Z :=
  if Z.of_nat (length s) <=? int_max_str_digits then Ok (digits_value s)
  else Raise ValueError.

Fixpoint uint_str (d : Decimal.uint) : str :=
  match d with
  | Decimal.Nil => []
  | Decimal.D0 d => 48 :: uint_str d
  | Decimal.D1 d => 49 :: uint_str d
  | Decimal.D2 d => 50 :: uint_str d
  | Decimal.D3 d => 51 :: uint_str d
  | Decimal.D4 d => 52 :: uint_str d
  | Decimal.D5 d => 53 :: uint_str d
  | Decimal.D6 d => 54 :: uint_str d
  | Decimal.D7 d => 55 :: uint_str d
  | Decimal.D8 d => 56 :: uint_str d
  | Decimal.D9 d => 57 :: uint_str d
  end.

(** [str(n)] for an [int]. The interpreter refuses to render a number of
    more than [int_max_str_digits] digits; the script renders only numbers
    that [int()] has read, which are below that. *)
Definition int_str (n : Z) : str :=
  match Z.to_int n with
  | Decimal.Pos d => uint_str d
  | Decimal.Neg d => 45 :: uint_str d
  end.

(** ** [packaging.version.Version]

    Only versions made of a release segment are modelled: epoch 0 and no
    pre, post, dev or local part. Every other part of the version grammar
    needs a letter or one of [! + - _], so on a string made of decimal
    digits, dots and white space the grammar below is the whole grammar;
    [TAG_PATTERN] lets no other string reach the constructor. *)

Module Version.

Record t := Make { release : list Z }.

(** The release segment: [[0-9]+(\.[0-9]+)*]. *)
Definition is_number (p : str) : bool :=
  match p with [] => false | _ => forallb Unicode.is_ascii_digit p end.

Definition release_parts (s : str) : option (list str) :=
  let parts := PyStr.split 46 s in
  if forallb is_number parts then Some parts else None.

(** [tuple(int(i) for i in parts)]: the first [int()] that raises ends the
    conversion. *)
Fixpoint ints (parts : list str) : result (list Z) :=
  match parts with
  | [] => Ok []
  | p :: ps => n ← int_of_digits p; ns ← ints ps; Ok (n :: ns)
  end.

(** [Version(s)]: white space around the version and one leading [v] are
    allowed. A text outside the grammar raises [InvalidVersion]; the
    numbers of a text inside it are then read by [int()], whose
    [ValueError] the constructor lets through. *)
Definition parse (s : str) : result t :=
  let s := PyStr.strip s in
  let s := match s with
           | c :: s' => if (c =? 118) || (c =? 86) then s' else s
           | [] => s
           end in
  match release_parts s with
  | Some parts => r ← ints parts; Ok (Make r)
  | None => Raise InvalidVersion
  end.

Definition major (v : t) : Z := nth 0 (release v) 0.
Definition minor (v : t) : Z := nth 1 (release v) 0.
Definition micro (v : t) : Z := nth 2 (release v) 0.

(** The comparison key: the release without its trailing zeros. *)
Definition key (v : t) : list Z :=
  rev (PyStr.drop_while (Z.eqb 0) (rev (release v))).

(** [a < b] on tuples of integers. *)
Fixpoint tuple_lt (a b : list Z) : bool :=
  match a, b with
  | _, [] => false
  | [], _ :: _ => true
  | x :: a', y :: b' =>
      if x <? y then true else if y <? x then false else tuple_lt a' b'
  end.

Definition lt (a b : t) : bool := tuple_lt (key a) (key b).
Definition gt (a b : t) : bool := lt b a.

(** [str(v)]. *)
Definition to_str (v : t) : str :=
  PyStr.join [46] (map int_str (release v)).

End Version.

(** ** [json.dumps(obj, indent=2)] *)

Module Json.

#[local] Unset Elimination Schemes.
Inductive value :=
| Str (s : str)
| Arr (xs : list value)
| Obj (items : list (str * value)).   (* a dict, in insertion order *)
#[local] Set Elimination Schemes.

Definition hexdigit (d : Z) : char := if d <? 10 then 48 + d else 87 + d.

(** ['%04x' % n] for [n] below [0x10000]. *)
Definition hex4 (n : Z) : str :=
  [hexdigit (n / 4096 mod 16); hexdigit (n / 256 mod 16);
   hexdigit (n / 16 mod 16); hexdigit (n mod 16)].

Definition u_escape (n : Z) : str := 92 :: 117 :: hex4 n.

(** What [encode_basestring_ascii] puts in place of one character: the
    printable ASCII characters stand for themselves, except the quote and
    the backslash; everything else is escaped. *)
Definition escape_char (c : char) : str :=
  if c =? 34 then [92; 34]
  else if c =? 92 then [92; 92]
  else if (32 <=? c) && (c <=? 126) then [c]
  else if c =? 10 then [92; 110]
  else if c =? 13 then [92; 114]
  else if c =? 9 then [92; 116]
  else if c =? 8 then [92; 98]
  else if c =? 12 then [92; 102]
  else if c <? 65536 then u_escape c
  else u_escape (Z.lor 55296 (Z.land (Z.shiftr (c - 65536) 10) 1023))
       ++ u_escape (Z.lor 56320 (Z.land (c - 65536) 1023)).

Definition encode_basestring_ascii (s : str) : str :=
  34 :: concat (map escape_char s) ++ [34].

(** A line feed and the indentation of a nesting level. *)
Definition newline_indent (level : nat) : str :=
  10 :: repeat 32 (2 * level)%nat.

Fixpoint encode (level : nat) (v : value) : str :=
  match v with
  | Str s => encode_basestring_ascii s
  | Arr [] => lit "[]"
  | Arr xs =>
      lit "[" ++ newline_indent (S level)
      ++ PyStr.join (lit "," ++ newline_indent (S level))
           (map (encode (S level)) xs)
      ++ newline_indent level ++ lit "]"
  | Obj [] => lit "{}"
  | Obj items =>
      lit "{" ++ newline_indent (S level)
      ++ PyStr.join (lit "," ++ newline_indent (S level))
           (map (fun kv => encode_basestring_ascii (fst kv) ++ lit ": "
                           ++ encode (S level) (snd kv)) items)
      ++ newline_indent level ++ lit "}"
  end.

Definition dumps (v : value) : str := encode 0 v.

End Json.

(** ** Text encodings and the file system *)

Inductive Encoding := UTF_8 | ISO_8859_1 | US_ASCII.

Definition byte_of_Z (z : Z) : Byte.byte :=
  default Byte.x00 (Byte.of_N (Z.to_N z)).

Definition utf8_char (c : char) : option (list Byte.byte) :=
  if c <? 0 then None
  else if c <? 128 then Some [byte_of_Z c]
  else if c <? 2048 then
    Some [byte_of_Z (192 + c / 64); byte_of_Z (128 + c mod 64)]
  else if c <? 65536 then
    if (55296 <=? c) && (c <=? 57343) then None
    else Some [byte_of_Z (224 + c / 4096); byte_of_Z (128 + c / 64 mod 64);
               byte_of_Z (128 + c mod 64)]
  else if c <? 1114112 then
    Some [byte_of_Z (240 + c / 262144); byte_of_Z (128 + c / 4096 mod 64);
          byte_of_Z (128 + c / 64 mod 64); byte_of_Z (128 + c mod 64)]
  else None.

Definition encode_char (enc : Encoding) (c : char) : option (list Byte.byte) :=
  match enc with
  | UTF_8 => utf8_char c
  | ISO_8859_1 => if (0 <=? c) && (c <? 256) then Some [byte_of_Z c] else None
  | US_ASCII => if (0 <=? c) && (c <? 128) then Some [byte_of_Z c] else None
  end.

(** [s.encode(enc)] with the strict error handler. *)
Fixpoint encode_str (enc : Encoding) (s : str) : result (list Byte.byte) :=
  match s with
  | [] => Ok []
  | c :: s' =>
      match encode_char enc c with
      | Some bs => rest ← encode_str enc s'; mret (bs ++ rest)
      | None => Raise UnicodeEncodeError
      end
  end.

(** What a path of the working directory holds: a regular file, with the
    bytes in it and whether the process may open it for writing, or a
    directory. *)
Inductive node :=
| RegularFile (content : list Byte.byte) (writable : bool)
| Directory.

(** The working directory: its entries, and whether the process may
    create a file in it. *)
Record FileSystem := {
  nodes : gmap string node;
  may_create : bool
}.

Abbreviation FS := FileSystem (only parsing).

Definition set_content (path : string) (bytes : list Byte.byte) (fs : FS)
  : FS :=
  {| nodes := <[path := RegularFile bytes true]> (nodes fs);
     may_create := may_create fs |}.

(** [open(path, "w")]: an existing file is emptied, a missing one is
    created empty. *)
Definition open_for_writing (path : string) (fs : FS) : result FS :=
  match nodes fs !! path with
  | Some Directory => Raise (OSError IsADirectoryError)
  | Some (RegularFile _ false) => Raise (OSError PermissionError)
  | Some (RegularFile _ true) => Ok (set_content path [] fs)
  | None =>
      if may_create fs then Ok (set_content path [] fs)
      else Raise (OSError PermissionError)
  end.

(** What the run reads from its surroundings. *)
Record World := {
  FRAPPE_VERSION : option str;                    (* the environment variable *)
  git_ls_remote_tags : str -> subprocess_error + str;  (* git ls-remote --tags url *)
  locale_encoding : Encoding                      (* default of text files *)
}.

(** [Path(path).write_text(data)]: the file is opened for writing, which
    empties it, and the encoded text is written; a text that cannot be
    encoded leaves the file empty. The device is taken not to fail nor to
    fill up while the bytes are written. *)
Definition write_text (w : World) (path : string) (data : str) (fs : FS)
  : result unit * FS :=
  match open_for_writing path fs with
  | Raise e => (Raise e, fs)
  | Ok opened =>
      match encode_str (locale_encoding w) data with
      | Ok bytes => (Ok (), set_content path bytes opened)
      | Raise e => (Raise e, opened)
      end
  end.

(** ** The script *)

Definition REPOS : list str :=
  [lit "https://github.com/frappe/erpnext";
   lit "https://github.com/frappe/hrms";
   lit "https://github.com/frappe/crm";
   lit "https://github.com/frappe/helpdesk";
   lit "https://github.com/frappe/drive";
   lit "https://github.com/frappe/insights";
   lit "https://github.com/frappe/builder";
   lit "https://github.com/frappe/lms"].

(** [v\d+\.\d+\.\d+$] *)
Definition TAG_PATTERN : list Re.item :=
  [Re.One (Re.Chr 118); Re.Plus Re.Digit; Re.One (Re.Chr 46);
   Re.Plus Re.Digit; Re.One (Re.Chr 46); Re.Plus Re.Digit; Re.Dollar].

(** [subprocess.check_output(["git", "ls-remote", "--tags", repo_url], text=True)] *)
Definition check_output (w : World) (repo_url : str) : result str :=
  match git_ls_remote_tags w repo_url with
  | inl e => Raise (SubprocessError e)
  | inr output => Ok output
  end.

(** [_, ref = parts] *)
Definition unpack_second (parts : list str) : result str :=
  match parts with
  | [_; ref] => Ok ref
  | _ => Raise ValueError
  end.

(** The name that is matched against the pattern: every occurrence of
    [refs/tags/] is removed from the ref, then one final [^{}]. *)
Definition tag_of_ref (ref : str) : str :=
  let tag := PyStr.replace (lit "refs/tags/") [] ref in
  if PyStr.endswith tag (lit "^{}") then take (length tag - 3)%nat tag else tag.

(** What a tag adds to [tags]: a version, or nothing when the pattern
    rejects it or [Version] raises [InvalidVersion]. *)
Definition version_of_tag (tag : str) : result (option Version.t) :=
  if Re.matches TAG_PATTERN tag then
    match Version.parse (PyStr.lstrip (lit "v") tag) with
    | Ok v => Ok (Some v)
    | Raise InvalidVersion => Ok None
    | Raise e => Raise e
    end
  else Ok None.

(** The body of the loop over the lines, for one line. *)
Definition scan_line (line : str) : result (option Version.t) :=
  ref ← unpack_second (PyStr.split 9 line);
  version_of_tag (tag_of_ref ref).

(** The loop over the lines; [tags] is the list built so far. *)
Fixpoint scan_lines (lines : list str) (tags : list Version.t)
  : result (list Version.t) :=
  match lines with
  | [] => Ok tags
  | line :: rest =>
      found ← scan_line line;
      scan_lines rest (match found with Some v => tags ++ [v] | None => tags end)
  end.

(** One step of [max]: a later element replaces the best one so far only
    when it is strictly greater. *)
Definition keep_greater (best t : Version.t) : Version.t :=
  if Version.gt t best then t else best.

(** [max(versions)]: the first of the greatest elements. *)
Definition py_max (versions : list Version.t) : result Version.t :=
  match versions with
  | [] => Raise ValueError
  | v :: rest => Ok (fold_left keep_greater rest v)
  end.

(** The lines the loop of [get_latest_tag] visits. *)
Definition listing_lines (output : str) : list str :=
  PyStr.splitlines (PyStr.strip output).

Definition major_matches (major : option Z) (t : Version.t) : bool :=
  match major with
  | None => true
  | Some m => Version.major t =? m
  end.

(** What [get_latest_tag] does with [tags] once the loop is over. *)
Definition latest_of (tags : list Version.t) (major : option Z)
  : result (option str) :=
  match tags with
  | [] => Ok None
  | _ =>
      let matching := List.filter (major_matches major) tags in
      let matching := match matching with [] => tags | _ => matching end in
      latest ← py_max matching;
      Ok (Some (lit "v" ++ Version.to_str latest))
  end.

Definition get_latest_tag (w : World) (repo_url : str) (major : option Z)
  : result (option str) :=
  output ← check_output w repo_url;
  tags ← scan_lines (listing_lines output) [];
  latest_of tags major.

Record ManifestEntry := { git_url : str; branch : str }.

(** [tag or "main"] *)
Definition tag_or_main (tag : option str) : str :=
  match tag with
  | None | Some [] => lit "main"
  | Some t => t
  end.

(** The loop of [main] over the repositories; [apps] is the list built so
    far. *)
Fixpoint resolve_all (w : World) (major : option Z) (repos : list str)
    (apps : list ManifestEntry) : result (list ManifestEntry) :=
  match repos with
  | [] => Ok apps
  | repo :: rest =>
      tag ← get_latest_tag w repo major;
      resolve_all w major rest
        (apps ++ [{| git_url := repo; branch := tag_or_main tag |}])
  end.

(** [re.search(r"(\d+)", env_version)] and [int(match.group(1))]. *)
Definition major_of_env (env_version : str) : result (option Z) :=
  match Re.search [Re.Plus Re.Digit] env_version with
  | Some digits => n ← int_of_digits digits; Ok (Some n)
  | None => Ok None
  end.

(** The value handed to [json.dumps]. *)
Definition entry_value (e : ManifestEntry) : Json.value :=
  Json.Obj [(lit "git_url", Json.Str (git_url e));
            (lit "branch", Json.Str (branch e))].

Definition apps_value (apps : list ManifestEntry) : Json.value :=
  Json.Arr (map entry_value apps).

(** The run over an explicit list of repositories. *)
Definition run (w : World) (repos : list str) (fs : FS) : result unit * FS :=
  match major_of_env (default [] (FRAPPE_VERSION w)) with
  | Raise e => (Raise e, fs)
  | Ok major =>
      match resolve_all w major repos [] with
      | Raise e => (Raise e, fs)
      | Ok apps =>
          write_text w "apps.json" (Json.dumps (apps_value apps) ++ [10]) fs
      end
  end.

Definition main (w : World) (fs : FS) : result unit * FS := run w REPOS fs.

(** [sys.exit] status of a run: an exception that nobody catches ends the
    interpreter with status 1. *)
Definition exit_status (r : result unit) : Z :=
  match r with Ok _ => 0 | Raise _ => 1 end.

(** ** The vocabulary of the specification

    These definitions follow the words of the specification, not the code;
    the theorems compare the two. *)

Module Spec.

(** Major, then minor, then patch, each compared as a number. *)
Definition semver_lt (a b : Version.t) : Prop :=
  Version.major a < Version.major b
  ∨ (Version.major a = Version.major b
     ∧ (Version.minor a < Version.minor b
        ∨ (Version.minor a = Version.minor b
           ∧ Version.micro a < Version.micro b))).

Definition semver_eq (a b : Version.t) : Prop :=
  Version.major a = Version.major b
  ∧ Version.minor a = Version.minor b
  ∧ Version.micro a = Version.micro b.

Definition semver_le (a b : Version.t) : Prop :=
  semver_lt a b ∨ semver_eq a b.

(** A version of exactly three numbers, none of them negative. *)
Definition three_part (v : Version.t) : Prop :=
  ∃ x y z, Version.release v = [x; y; z] ∧ 0 <= x ∧ 0 <= y ∧ 0 <= z.

(** [a < b] on strings: character by character, a proper prefix first. *)
Fixpoint str_lt (a b : str) : bool :=
  match a, b with
  | _, [] => false
  | [], _ :: _ => true
  | x :: a', y :: b' =>
      if x <? y then true else if y <? x then false else str_lt a' b'
  end.

(** A non-empty run of digits, for a given notion of digit. *)
Definition digits (digit : char -> bool) (s : str) : Prop :=
  s ≠ [] ∧ forallb digit s = true.

(** Exactly [v<digits>.<digits>.<digits>], nothing before or after. *)
Definition semver_shaped (digit : char -> bool) (tag : str) : Prop :=
  ∃ a b c, tag = lit "v" ++ a ++ lit "." ++ b ++ lit "." ++ c
           ∧ digits digit a ∧ digits digit b ∧ digits digit c.

(** A name without one final [^{}]. *)
Definition unpeeled (name : str) : str :=
  if PyStr.endswith name (lit "^{}") then take (length name - 3)%nat name
  else name.

(** A ref without the prefix [refs/tags/] and without one final [^{}]. *)
Definition tag_name (ref : str) : str :=
  unpeeled (if PyStr.startswith ref (lit "refs/tags/") then drop 10 ref
            else ref).

(** The characters that stand for themselves in a JSON string: the
    printable ASCII characters but the quote and the backslash. *)
Definition plain (c : char) : bool :=
  (32 <=? c) && (c <=? 126) && negb (c =? 34) && negb (c =? 92).

(** A JSON string whose characters are all plain: the characters
    between two quotes. *)
Definition quoted (s : str) : str := [34] ++ s ++ [34].

(** One object of the manifest, at the first nesting level of a JSON
    document indented by two spaces: the member [git_url], then the
    member [branch], each on a line of its own. The values are written
    as they are, which is how JSON writes a string of plain
    characters. *)
Definition entry_text (e : ManifestEntry) : str :=
  lit "  {" ++ [10]
  ++ lit "    " ++ quoted (lit "git_url") ++ lit ": " ++ quoted (git_url e)
  ++ lit "," ++ [10]
  ++ lit "    " ++ quoted (lit "branch") ++ lit ": " ++ quoted (branch e)
  ++ [10]
  ++ lit "  }".

(** The objects one after the other, a comma and a line feed between
    two of them. *)
Fixpoint entries_text (apps : list ManifestEntry) : str :=
  match apps with
  | [] => []
  | [e] => entry_text e
  | e :: rest => entry_text e ++ lit "," ++ [10] ++ entries_text rest
  end.

(** The manifest file: a JSON array of such objects and a final line
    feed. *)
Definition manifest_text (apps : list ManifestEntry) : str :=
  match apps with
  | [] => lit "[]" ++ [10]
  | _ => lit "[" ++ [10] ++ entries_text apps ++ [10] ++ lit "]" ++ [10]
  end.

(** What a run records for a repository: its identifier, and the tag
    the resolver returned or else [main]. *)
Definition resolved (w : World) (major : option Z) (repo : str)
    (e : ManifestEntry) : Prop :=
  git_url e = repo
  ∧ ∃ tag, get_latest_tag w repo major = Ok tag
           ∧ branch e = tag_or_main tag.

(** The printable ASCII characters, and the seven-bit ones. *)
Definition printable (c : char) : Prop := 32 <= c <= 126.
Definition seven_bit (c : char) : Prop := 0 <= c < 128.

(** The number a byte stands for. *)
Definition byte_value (b : Byte.byte) : Z := Z.of_N (Byte.to_N b).

(** The six bits that a continuation byte [10xxxxxx] carries. *)
Definition continuation (b : Byte.byte) : option Z :=
  let v := byte_value b in
  if (128 <=? v) && (v <? 192) then Some (v - 128) else None.

Definition cons_char (c : char) (rest : option str) : option str :=
  match rest with Some s => Some (c :: s) | None => None end.

(** Reading UTF-8 (RFC 3629): one byte below 128 for itself, or a lead
    byte and one to three continuation bytes; encodings longer than
    needed, surrogates and values above [10FFFF] are refused. *)
Fixpoint utf8_decode (bs : list Byte.byte) : option str :=
  match bs with
  | [] => Some []
  | b0 :: r0 =>
      let v0 := byte_value b0 in
      if v0 <? 128 then cons_char v0 (utf8_decode r0)
      else if v0 <? 192 then None
      else
        match r0 with
        | [] => None
        | b1 :: r1 =>
            match continuation b1 with
            | None => None
            | Some x1 =>
                if v0 <? 224 then
                  let c := (v0 - 192) * 64 + x1 in
                  if 128 <=? c then cons_char c (utf8_decode r1) else None
                else
                  match r1 with
                  | [] => None
                  | b2 :: r2 =>
                      match continuation b2 with
                      | None => None
                      | Some x2 =>
                          if v0 <? 240 then
                            let c := (v0 - 224) * 4096 + x1 * 64 + x2 in
                            if (2048 <=? c)
                               && negb ((55296 <=? c) && (c <=? 57343))
                            then cons_char c (utf8_decode r2) else None
                          else
                            match r2 with
                            | [] => None
                            | b3 :: r3 =>
                                match continuation b3 with
                                | None => None
                                | Some x3 =>
                                    let c := (v0 - 240) * 262144 + x1 * 4096
                                             + x2 * 64 + x3 in
                                    if (v0 <? 248) && (65536 <=? c)
                                       && (c <? 1114112)
                                    then cons_char c (utf8_decode r3)
                                    else None
                                end
                            end
                      end
                  end
            end
        end
  end.

(** The process may open the path for writing: an existing file that is
    writable, or a missing one in a directory where it may create. *)
Definition can_write (path : string) (fs : FS) : Prop :=
  match nodes fs !! path with
  | Some (RegularFile _ writable) => writable = true
  | Some Directory => False
  | None => may_create fs = true
  end.

(** The bytes that a reader finds in a file. *)
Definition file_bytes (path : string) (fs : FS) : option (list Byte.byte) :=
  match nodes fs !! path with
  | Some (RegularFile content _) => Some content
  | Some Directory | None => None
  end.

(** No unbroken run of decimal digits of [s] is longer than [int()]
    reads. *)
Definition digit_runs_within_limit (s : str) : Prop :=
  ∀ pre run post,
    s = pre ++ run ++ post →
    forallb Unicode.isdecimal run = true →
    Z.of_nat (length run) <= int_max_str_digits.

(** A number that [int()] reads: ASCII digits, and no more of them than
    the interpreter allows. *)
Definition number (s : str) : Prop :=
  digits Unicode.is_ascii_digit s
  ∧ Z.of_nat (length s) <= int_max_str_digits.

(** Exactly [v<number>.<number>.<number>]. *)
Definition version_shaped (tag : str) : Prop :=
  ∃ a b c, tag = lit "v" ++ a ++ lit "." ++ b ++ lit "." ++ c
           ∧ number a ∧ number b ∧ number c.

(** A version of three numbers that the interpreter renders. *)
Definition rendered_within_limit (v : Version.t) : Prop :=
  Forall (fun x => Z.of_nat (length (int_str x)) <= int_max_str_digits)
    (Version.release v).

(** A number written in ASCII digits without a superfluous leading zero. *)
Definition canonical_number (s : str) : Prop :=
  digits Unicode.is_ascii_digit s ∧ (s = [48] ∨ hd 0 s ≠ 48).

(** What the [branch] field of a manifest entry can hold. *)
Definition branch_shaped (b : str) : Prop :=
  b = lit "main" ∨ semver_shaped Unicode.is_ascii_digit b.

(** The same elements, whatever their order and their number. *)
Definition same_elements {A : Type} (l l' : list A) : Prop :=
  ∀ x, In x l ↔ In x l'.

(** Two surroundings that a run cannot tell apart: the same environment
    variable, the same default encoding and the same answers for the
    configured repositories. *)
Definition agree_on_repos (w w' : World) : Prop :=
  FRAPPE_VERSION w = FRAPPE_VERSION w'
  ∧ locale_encoding w = locale_encoding w'
  ∧ ∀ repo, In repo REPOS →
      git_ls_remote_tags w repo = git_ls_remote_tags w' repo.

End Spec.

(** ** Inputs used in the examples *)

Module Examples.

(** A line of [git ls-remote] output. *)
Definition ls_line (oid ref : str) : str := oid ++ [9] ++ ref ++ [10].

Definition oid1 : str := lit "6f1d2c0e9a7b4d3f8e5a1b2c3d4e5f6a7b8c9d0e".
Definition oid2 : str := lit "0a1b2c3d4e5f6a7b8c9d0e1f2a3b4c5d6e7f8a9b".
Definition oid3 : str := lit "9e8d7c6b5a4f3e2d1c0b9a8f7e6d5c4b3a2f1e0d".

(** The tags v1.2.3, v1.10.0 and v2.0.0. *)
Definition three_tags : str :=
  ls_line oid1 (lit "refs/tags/v1.2.3")
  ++ ls_line oid2 (lit "refs/tags/v1.10.0")
  ++ ls_line oid3 (lit "refs/tags/v2.0.0").

(** Tags that the pattern rejects, and nothing else. *)
Definition no_release_tags : str :=
  ls_line oid1 (lit "refs/tags/v3.0.0-rc1")
  ++ ls_line oid2 (lit "refs/tags/release-7")
  ++ ls_line oid3 (lit "refs/tags/v1.2").

(** A listing that is one space, and one whose only record is indented
    by two tabs. *)
Definition blank_listing : str := [32].
Definition indented_listing : str :=
  [9; 9] ++ oid1 ++ [9] ++ lit "refs/tags/nightly".

(** A listing with a line that is no record. *)
Definition broken_listing : str :=
  ls_line oid1 (lit "refs/tags/v1.2.3") ++ lit "fatal: unable to access"
  ++ [10].

(** The tag written with the Arabic-Indic digits one, two and three. *)
Definition arabic_indic_tag : str := [118; 1633; 46; 1634; 46; 1635].

(** A working directory without entries, where files may be created. *)
Definition empty_directory : FileSystem :=
  {| nodes := ∅; may_create := true |}.

(** A working directory that holds an earlier, empty manifest. *)
Definition stale_manifest : FileSystem :=
  {| nodes := {[ "apps.json"%string := RegularFile [Byte.x5b; Byte.x5d] true ]};
     may_create := false |}.

(** A run of 4301 digits, one more than [int()] reads, and a tag whose
    major number it is. *)
Definition long_number : str := repeat 49 4301.
Definition long_tag : str := lit "v" ++ long_number ++ lit ".0.0".

Definition world (env : option str) (ls : str -> subprocess_error + str)
  : World :=
  {| FRAPPE_VERSION := env; git_ls_remote_tags := ls;
     locale_encoding := UTF_8 |}.

Definition v (a b c : Z) : Version.t := Version.Make [a; b; c].

(** Every repository answers with the three tags, except one that
    [git] cannot reach. *)
Definition crm_down : World :=
  world (Some (lit "version-15"))
    (fun repo =>
       if PyStr.eqb repo (lit "https://github.com/frappe/crm")
       then inl (CalledProcessError 128)
       else inr three_tags).

(** Every repository answers with the three tags. *)
Definition all_up (env : option str) (enc : Encoding) : World :=
  {| FRAPPE_VERSION := env; git_ls_remote_tags := fun _ => inr three_tags;
     locale_encoding := enc |}.

(** The three tags in another order, one of them listed a second time as
    a dereferenced tag. *)
Definition three_tags_shuffled : str :=
  ls_line oid3 (lit "refs/tags/v2.0.0")
  ++ ls_line oid1 (lit "refs/tags/v1.2.3")
  ++ ls_line oid2 (lit "refs/tags/v1.10.0")
  ++ ls_line oid1 (lit "refs/tags/v1.2.3^{}").

(** As [all_up], except for a repository that is not configured. *)
Definition all_up_elsewhere_down : World :=
  {| FRAPPE_VERSION := None;
     git_ls_remote_tags := fun repo =>
       if PyStr.eqb repo (lit "https://github.com/frappe/wiki")
       then inl FileNotFoundError else inr three_tags;
     locale_encoding := UTF_8 |}.

End Examples.

(** * Proofs *)

(** Turns the ASCII literals of the goal into code points. *)
Ltac lit_compute :=
  cbn [lit app];
  repeat match goal with
         | |- context [ord ?a] =>
             let n := eval vm_compute in (ord a) in change (ord a) with n
         end.

(** ** Facts about the character classes *)

Section CharacterClasses.

Lemma find_in_block_none (c : Z) (zs : list Z) :
  forallb (fun z => negb (Unicode.in_block c z)) zs = true ->
  List.find (Unicode.in_block c) zs = None.
Proof.
  induction zs as [|z zs IH]; [reflexivity|].
  cbn. intros [Hz Hzs]%andb_true_iff.
  destruct (Unicode.in_block c z); [discriminate|auto].
Qed.

(** No digit block meets an interval that every block lies outside of. *)
Lemma decimal_none (c lo hi : Z) :
  forallb (fun z => (z + 10 <=? lo) || (hi <? z)) Unicode.Nd_zeros = true ->
  lo <= c <= hi -> Unicode.isdecimal c = false.
Proof.
  intros Hzs Hc. unfold Unicode.isdecimal, Unicode.decimal.
  rewrite find_in_block_none; [reflexivity|].
  rewrite forallb_forall in Hzs |- *. intros z Hz.
  specialize (Hzs z Hz). unfold Unicode.in_block. lia.
Qed.

Lemma isdecimal_ge c : Unicode.isdecimal c = true -> 48 <= c.
Proof.
  intros H. destruct (Z_lt_le_dec c 48) as [Hlt|]; [|assumption].
  unfold Unicode.isdecimal, Unicode.decimal in H.
  rewrite find_in_block_none in H; [discriminate|].
  apply forallb_forall. intros z Hz.
  assert (48 <= z).
  { assert (Hall : forallb (Z.leb 48) Unicode.Nd_zeros = true) by reflexivity.
    rewrite forallb_forall in Hall. specialize (Hall z Hz). lia. }
  unfold Unicode.in_block. lia.
Qed.

Lemma ascii_digit_decimal c :
  Unicode.is_ascii_digit c = true -> Unicode.decimal c = Some (c - 48).
Proof.
  unfold Unicode.is_ascii_digit, Unicode.decimal. intros H. cbn.
  replace (Unicode.in_block c 48) with true; [reflexivity|].
  unfold Unicode.in_block. lia.
Qed.

Lemma ascii_digit_isdecimal c :
  Unicode.is_ascii_digit c = true -> Unicode.isdecimal c = true.
Proof.
  intros H. unfold Unicode.isdecimal. now rewrite ascii_digit_decimal.
Qed.

Lemma isdecimal_not_space c :
  Unicode.isdecimal c = true -> Unicode.isspace c = false.
Proof.
  intros H. apply isdecimal_ge in H as Hge.
  destruct (Unicode.isspace c) eqn:E; [|reflexivity].
  assert (Hc : 133 <= c <= 160 \/ c = 5760 \/ 8192 <= c <= 8287 \/ c = 12288)
    by (unfold Unicode.isspace in E; lia).
  destruct Hc as [Hc|[->|[Hc| ->]]].
  - rewrite (decimal_none c 133 160) in H; [discriminate|reflexivity|lia].
  - discriminate H.
  - rewrite (decimal_none c 8192 8287) in H; [discriminate|reflexivity|lia].
  - discriminate H.
Qed.

Lemma isdecimal_not_punct c :
  Unicode.isdecimal c = true -> c <> 46 /\ c <> 118 /\ c <> 86 /\ c <> 10.
Proof.
  intros H. repeat split; intros ->; discriminate H.
Qed.

End CharacterClasses.

(** ** Facts about the string methods *)

Section StringMethods.

Lemma take_drop_while p s :
  PyStr.take_while p s ++ PyStr.drop_while p s = s.
Proof.
  induction s as [|c s IH]; [reflexivity|].
  cbn. destruct (p c); cbn; [now rewrite IH|reflexivity].
Qed.

Lemma forallb_take_while p s : forallb p (PyStr.take_while p s) = true.
Proof.
  induction s as [|c s IH]; [reflexivity|].
  cbn. destruct (p c) eqn:E; cbn; [now rewrite E|reflexivity].
Qed.

Lemma drop_while_stop p s :
  match PyStr.drop_while p s with c :: _ => p c = false | [] => True end.
Proof.
  induction s as [|c s IH]; [exact I|].
  cbn. destruct (p c) eqn:E; [exact IH|exact E].
Qed.

Lemma drop_while_app p a b :
  forallb p a = true -> PyStr.drop_while p (a ++ b) = PyStr.drop_while p b.
Proof.
  induction a as [|c a IH]; [reflexivity|].
  cbn. intros [Hc Ha]%andb_true_iff. rewrite Hc. auto.
Qed.

Lemma drop_while_cons_false p c s :
  p c = false -> PyStr.drop_while p (c :: s) = c :: s.
Proof. intros H. cbn. now rewrite H. Qed.

Lemma drop_while_all p s :
  forallb p s = true -> PyStr.drop_while p s = [].
Proof.
  intros H. rewrite <- (app_nil_r s). now rewrite drop_while_app.
Qed.

(** *** [split] *)

Lemma split_not_nil sep s : PyStr.split sep s <> [].
Proof.
  destruct s as [|c s]; cbn; [discriminate|].
  destruct (c =? sep); [discriminate|].
  destruct (PyStr.split sep s); discriminate.
Qed.

Lemma length_split sep s :
  length (PyStr.split sep s) = S (PyStr.count sep s).
Proof.
  unfold PyStr.count. induction s as [|c s IH]; [reflexivity|].
  cbn. rewrite (Z.eqb_sym sep c). destruct (c =? sep); cbn.
  - now rewrite IH.
  - destruct (PyStr.split sep s) eqn:E; [now apply split_not_nil in E|].
    exact IH.
Qed.

Lemma split_no_sep sep s :
  forallb (fun c => negb (c =? sep)) s = true -> PyStr.split sep s = [s].
Proof.
  induction s as [|c s IH]; [reflexivity|].
  cbn. intros [Hc Hs]%andb_true_iff.
  destruct (c =? sep); [discriminate|]. now rewrite IH.
Qed.

Lemma split_app_sep sep a r :
  forallb (fun c => negb (c =? sep)) a = true ->
  PyStr.split sep (a ++ sep :: r) = a :: PyStr.split sep r.
Proof.
  induction a as [|c a IH]; cbn.
  - intros _. now rewrite Z.eqb_refl.
  - intros [Hc Ha]%andb_true_iff.
    destruct (c =? sep); [discriminate|]. now rewrite IH.
Qed.

(** *** [startswith], [endswith] and slices *)

Lemma startswith_spec s p :
  PyStr.startswith s p = true <-> exists r, s = p ++ r.
Proof.
  revert s. induction p as [|x p IH]; intros s; cbn.
  - split; [eauto|reflexivity].
  - destruct s as [|c s].
    + split; [discriminate|]. intros [r Hr]. discriminate.
    + rewrite andb_true_iff, Z.eqb_eq, IH. split.
      * intros [-> [r ->]]. eauto.
      * intros [r [= -> ->]]. eauto.
Qed.

Lemma endswith_spec s p :
  PyStr.endswith s p = true <-> exists r, s = r ++ p.
Proof.
  unfold PyStr.endswith. rewrite startswith_spec. split.
  - intros [r Hr]. exists (rev r).
    rewrite <- (rev_involutive s), Hr, rev_app_distr.
    now rewrite rev_involutive.
  - intros [r ->]. exists (rev r). apply rev_app_distr.
Qed.

Lemma take_without_suffix (r p : str) :
  take (length (r ++ p) - length p)%nat (r ++ p) = r.
Proof.
  rewrite length_app.
  replace (length r + length p - length p)%nat with (length r) by lia.
  apply take_app_length.
Qed.

(** *** [strip] *)

Lemma rstrip_ws_snoc_space s c :
  Unicode.isspace c = true ->
  PyStr.rstrip_ws (s ++ [c]) = PyStr.rstrip_ws s.
Proof.
  intros H. unfold PyStr.rstrip_ws. rewrite rev_app_distr. cbn.
  now rewrite H.
Qed.

Lemma rstrip_ws_snoc_other s c :
  Unicode.isspace c = false -> PyStr.rstrip_ws (s ++ [c]) = s ++ [c].
Proof.
  intros H. unfold PyStr.rstrip_ws. rewrite rev_app_distr. cbn.
  rewrite H. cbn. now rewrite rev_involutive.
Qed.


(** *** [replace] *)

(** A pattern cannot start inside [s] and end inside [t] when no
    character of [t] occurs in the pattern. *)
Lemma startswith_app_foreign (old s t : str) :
  old <> [] -> (forall c, In c t -> ~ In c old) ->
  PyStr.startswith (s ++ t) old = PyStr.startswith s old.
Proof.
  intros Hne Ht. revert s Hne. induction old as [|x old IH]; [easy|].
  intros s _. destruct s as [|c s]; cbn.
  - destruct t as [|c t]; [reflexivity|].
    destruct (Z.eqb_spec x c) as [->|]; [|reflexivity].
    exfalso. apply (Ht c); now left.
  - destruct (x =? c); [|reflexivity]. cbn.
    destruct old as [|y old]; [reflexivity|].
    apply IH; [|discriminate].
    intros d Hd Hin. apply (Ht d Hd). now right.
Qed.

Lemma startswith_length s p :
  PyStr.startswith s p = true -> (length p <= length s)%nat.
Proof.
  intros [r ->]%startswith_spec. rewrite length_app. lia.
Qed.

Lemma replace_from_foreign (old new t : str) :
  old <> [] -> (forall c, In c t -> ~ In c old) ->
  forall s skip, (skip <= length s)%nat ->
  PyStr.replace_from old new skip (s ++ t)
  = PyStr.replace_from old new skip s ++ PyStr.replace_from old new 0 t.
Proof.
  intros Hne Ht s. induction s as [|c s IH]; intros skip Hskip.
  - cbn in Hskip. now replace skip with O by lia.
  - cbn [app PyStr.replace_from]. destruct skip as [|k].
    + change (c :: s ++ t) with ((c :: s) ++ t).
      rewrite startswith_app_foreign by assumption.
      destruct (PyStr.startswith (c :: s) old) eqn:E.
      * apply startswith_length in E. cbn in E.
        rewrite IH by lia. now rewrite app_assoc.
      * rewrite IH by lia. reflexivity.
    + apply IH. cbn in Hskip. lia.
Qed.

Lemma replace_from_absent (old new s : str) :
  PyStr.contains s old = false -> PyStr.replace_from old new 0 s = s.
Proof.
  induction s as [|c s IH]; [reflexivity|].
  cbn [PyStr.contains PyStr.replace_from].
  intros [H1 H2]%orb_false_iff. rewrite H1, IH; auto.
Qed.

Lemma replace_foreign_suffix (old new s t : str) :
  old <> [] -> (forall c, In c t -> ~ In c old) ->
  PyStr.replace old new (s ++ t) = PyStr.replace old new s ++ t.
Proof.
  intros Hne Ht. unfold PyStr.replace.
  rewrite replace_from_foreign by (assumption || lia). f_equal.
  apply replace_from_absent.
  induction t as [|c t IH]; cbn.
  - destruct old; [easy|reflexivity].
  - rewrite IH by (intros d Hd; apply Ht; now right).
    destruct old as [|x old]; [easy|]. cbn.
    destruct (Z.eqb_spec x c) as [->|]; [|reflexivity].
    exfalso. apply (Ht c); now left.
Qed.

(** Deleting occurrences introduces no character. *)
Lemma replace_from_delete_In (old s : str) skip c :
  In c (PyStr.replace_from old [] skip s) -> In c s.
Proof.
  revert skip. induction s as [|d s IH]; intros skip; [easy|].
  cbn [PyStr.replace_from]. destruct skip as [|k].
  - destruct (PyStr.startswith (d :: s) old); cbn.
    + intros H. right. eapply IH, H.
    + intros [->|H]; [now left|]. right. eapply IH, H.
  - intros H. right. eapply IH, H.
Qed.

(** *** [splitlines] *)

Lemma splitlines_from_no_break (s cur : str) (l : str) (c : Z) :
  (forall d, In d cur -> Unicode.islinebreak d = false) ->
  In l (PyStr.splitlines_from cur s) -> In c l ->
  Unicode.islinebreak c = false.
Proof.
  remember (length s) as n eqn:Hn. revert s cur Hn.
  induction (lt_wf n) as [n _ IH]. intros s cur -> Hcur Hl Hc.
  destruct s as [|d s]; cbn in Hl.
  - destruct cur as [|x cur]; [easy|].
    destruct Hl as [<-|[]]. apply Hcur. now apply in_rev.
  - destruct (Unicode.islinebreak d) eqn:Ed.
    + destruct Hl as [<-|Hl]; [apply Hcur; now apply in_rev|].
      destruct s as [|e s].
      * cbn in Hl. easy.
      * destruct ((d =? 13) && (e =? 10)).
        -- eapply (IH (length s)); [cbn; lia|reflexivity| |exact Hl|exact Hc].
           easy.
        -- eapply (IH (length (e :: s))); [cbn; lia|reflexivity| |exact Hl|exact Hc].
           easy.
    + eapply (IH (length s)); [cbn; lia|reflexivity| |exact Hl|exact Hc].
      intros x [<-|Hx]; auto.
Qed.

Lemma splitlines_no_break (s l : str) (c : Z) :
  In l (PyStr.splitlines s) -> In c l -> Unicode.islinebreak c = false.
Proof. apply splitlines_from_no_break. easy. Qed.

End StringMethods.

(** ** The pattern *)

Section Pattern.

(** When the continuation rejects every subject that starts with an
    accepted character, giving characters back never helps: the greedy
    run is the only one tried with success. *)
Lemma many_greedy a k s :
  (forall c s', Re.accepts a c = true -> k (c :: s') = None) ->
  Re.many a k s = k (PyStr.drop_while (Re.accepts a) s).
Proof.
  intros Hk. induction s as [|c s IH]; [reflexivity|].
  cbn. destruct (Re.accepts a c) eqn:E; [|reflexivity].
  rewrite IH. destruct (k (PyStr.drop_while _ s)); [reflexivity|].
  now apply Hk.
Qed.

Lemma exec_plus_digit r s :
  (forall c s', Unicode.isdecimal c = true -> Re.exec r (c :: s') = None) ->
  Re.exec (Re.Plus Re.Digit :: r) s
  = match PyStr.take_while Unicode.isdecimal s with
    | [] => None
    | _ => Re.exec r (PyStr.drop_while Unicode.isdecimal s)
    end.
Proof.
  intros Hk. destruct s as [|c s]; [reflexivity|].
  cbn. destruct (Unicode.isdecimal c) eqn:E; [|reflexivity].
  now apply (many_greedy Re.Digit).
Qed.

Lemma exec_one a r s :
  Re.exec (Re.One a :: r) s
  = match s with
    | c :: s' => if Re.accepts a c then Re.exec r s' else None
    | [] => None
    end.
Proof. reflexivity. Qed.

Lemma exec_dot_digit r c s :
  Unicode.isdecimal c = true ->
  Re.exec (Re.One (Re.Chr 46) :: r) (c :: s) = None.
Proof.
  intros H. rewrite exec_one. cbn.
  destruct (Z.eqb_spec c 46) as [->|]; [discriminate H|easy].
Qed.

Lemma exec_dollar_digit c s :
  Unicode.isdecimal c = true -> Re.exec [Re.Dollar] (c :: s) = None.
Proof.
  intros H. cbn. destruct s; [|reflexivity].
  destruct (Z.eqb_spec c 10) as [->|]; [discriminate H|easy].
Qed.

Lemma run_digits (p : Z -> bool) s :
  PyStr.take_while p s <> [] -> Spec.digits p (PyStr.take_while p s).
Proof. intros H. split; [exact H|apply forallb_take_while]. Qed.

(** What [TAG_PATTERN.match] accepts: the shape of the specification
    made of decimal digits, and after it the end of the string or one
    last line feed. *)
Lemma tag_pattern_spec tag :
  Re.matches TAG_PATTERN tag = true <->
  exists core eol, tag = core ++ eol
    /\ Spec.semver_shaped Unicode.isdecimal core
    /\ (eol = [] \/ eol = [10]).
Proof.
  unfold Re.matches, TAG_PATTERN. split.
  - destruct tag as [|v s0]; [discriminate|].
    rewrite exec_one. cbn [Re.accepts].
    destruct (Z.eqb_spec v 118) as [->|]; [|discriminate].
    rewrite exec_plus_digit by (intros; now apply exec_dot_digit).
    destruct (PyStr.take_while Unicode.isdecimal s0) as [|a0 a] eqn:Ea; [discriminate|].
    pose proof (take_drop_while Unicode.isdecimal s0) as H0.
    destruct (PyStr.drop_while Unicode.isdecimal s0) as [|d1 s1]; [discriminate|].
    rewrite exec_one. cbn [Re.accepts].
    destruct (Z.eqb_spec d1 46) as [->|]; [|discriminate].
    rewrite exec_plus_digit by (intros; now apply exec_dot_digit).
    destruct (PyStr.take_while Unicode.isdecimal s1) as [|b0 b] eqn:Eb; [discriminate|].
    pose proof (take_drop_while Unicode.isdecimal s1) as H1.
    destruct (PyStr.drop_while Unicode.isdecimal s1) as [|d2 s2]; [discriminate|].
    rewrite exec_one. cbn [Re.accepts].
    destruct (Z.eqb_spec d2 46) as [->|]; [|discriminate].
    rewrite exec_plus_digit by (intros; now apply exec_dollar_digit).
    destruct (PyStr.take_while Unicode.isdecimal s2) as [|c0 c] eqn:Ec; [discriminate|].
    pose proof (take_drop_while Unicode.isdecimal s2) as H2.
    rewrite Ea in H0. rewrite Eb in H1. rewrite Ec in H2.
    remember (PyStr.drop_while Unicode.isdecimal s2) as eol eqn:Eeol.
    clear Eeol. cbn in H0, H1, H2. intros Hend.
    exists (lit "v" ++ (a0 :: a) ++ lit "." ++ (b0 :: b) ++ lit "." ++ (c0 :: c)), eol.
    split; [|split].
    + transitivity (118 :: a0 :: a ++ 46 :: b0 :: b ++ 46 :: c0 :: c ++ eol).
      * now rewrite H2, H1, H0.
      * cbn. repeat (rewrite <- ?app_assoc; cbn). reflexivity.
    + exists (a0 :: a), (b0 :: b), (c0 :: c).
      rewrite <- Ea, <- Eb, <- Ec.
      repeat split; try apply forallb_take_while; congruence.
    + destruct eol as [|e [|e' s3]]; [now left| |discriminate].
      cbn in Hend. destruct (Z.eqb_spec e 10) as [->|]; [now right|discriminate].
  - intros (core & eol & -> & (a & b & c & -> & [Ha Fa] & [Hb Fb] & [Hc Fc]) & Heol).
    lit_compute.
    repeat (rewrite <- ?app_assoc; cbn [app]).
    assert (Hrun : forall x r, x <> [] -> forallb Unicode.isdecimal x = true ->
               (match r with d :: _ => Unicode.isdecimal d = false | [] => True end) ->
               PyStr.take_while Unicode.isdecimal (x ++ r) <> []
               /\ PyStr.drop_while Unicode.isdecimal (x ++ r) = r).
    { intros x r Hx Fx Hr. split.
      - destruct x as [|x0 x]; [easy|]. cbn in Fx |- *.
        apply andb_true_iff in Fx as [-> _]. discriminate.
      - rewrite drop_while_app by assumption.
        destruct r as [|d r]; [reflexivity|]. now apply drop_while_cons_false. }
    rewrite exec_one. cbn [Re.accepts]. rewrite Z.eqb_refl.
    rewrite exec_plus_digit by (intros; now apply exec_dot_digit).
    destruct (Hrun a (46 :: b ++ 46 :: c ++ eol) Ha Fa eq_refl) as [Na ->].
    destruct (PyStr.take_while _ _); [easy|].
    rewrite exec_one. cbn [Re.accepts]. rewrite Z.eqb_refl.
    rewrite exec_plus_digit by (intros; now apply exec_dot_digit).
    destruct (Hrun b (46 :: c ++ eol) Hb Fb eq_refl) as [Nb ->].
    destruct (PyStr.take_while _ _); [easy|].
    rewrite exec_one. cbn [Re.accepts]. rewrite Z.eqb_refl.
    rewrite exec_plus_digit by (intros; now apply exec_dollar_digit).
    assert (He : match eol with d :: _ => Unicode.isdecimal d = false | [] => True end)
      by (destruct Heol as [->| ->]; easy).
    destruct (Hrun c eol Hc Fc He) as [Nc ->].
    destruct (PyStr.take_while _ _); [easy|].
    destruct Heol as [->| ->]; reflexivity.
Qed.

End Pattern.



(** ** Numbers and their decimal text *)

Section DecimalText.

Lemma decimal_nonneg c : 0 <= default 0 (Unicode.decimal c).
Proof.
  unfold Unicode.decimal.
  destruct (List.find _ _) as [z|] eqn:E; cbn; [|lia].
  apply find_some in E as [_ E]. unfold Unicode.in_block in E. lia.
Qed.

Lemma digits_value_nonneg s : 0 <= digits_value s.
Proof.
  unfold digits_value.
  assert (H : forall n, 0 <= n ->
    0 <= fold_left (fun n c => 10 * n + default 0 (Unicode.decimal c)) s n).
  { induction s as [|c s IH]; intros n Hn; cbn; [assumption|].
    apply IH. pose proof (decimal_nonneg c). lia. }
  apply H. lia.
Qed.

Lemma digits_value_cons c s n :
  Unicode.is_ascii_digit c = true ->
  fold_left (fun n c => 10 * n + default 0 (Unicode.decimal c)) (c :: s) n
  = fold_left (fun n c => 10 * n + default 0 (Unicode.decimal c)) s (10 * n + (c - 48)).
Proof. intros H. cbn [fold_left]. now rewrite (ascii_digit_decimal c H). Qed.

Lemma fold_uint_str_pos d acc :
  fold_left (fun n c => 10 * n + default 0 (Unicode.decimal c)) (uint_str d) (Zpos acc)
  = Zpos (Pos.of_uint_acc d acc).
Proof.
  revert acc.
  induction d; intros acc; cbn [uint_str Pos.of_uint_acc]; [reflexivity|..];
    rewrite digits_value_cons by reflexivity; rewrite <- IHd; f_equal; lia.
Qed.

Lemma fold_uint_str d :
  digits_value (uint_str d) = Z.of_N (Pos.of_uint d).
Proof.
  unfold digits_value.
  induction d; cbn [uint_str Pos.of_uint]; [reflexivity|..];
    rewrite digits_value_cons by reflexivity;
    [exact IHd|apply (fold_uint_str_pos d)..].
Qed.

Lemma uint_str_digits d : forallb Unicode.is_ascii_digit (uint_str d) = true.
Proof. induction d; cbn; auto. Qed.

Lemma uint_str_nonnil d : d <> Decimal.Nil -> uint_str d <> [].
Proof. destruct d; easy. Qed.

Lemma uint_str_inj d d' : uint_str d = uint_str d' -> d = d'.
Proof.
  revert d'. induction d; destruct d'; cbn; try discriminate; try reflexivity;
    intros [= H]; f_equal; auto.
Qed.

Lemma length_uint_str d : length (uint_str d) = Decimal.nb_digits d.
Proof. induction d; cbn; congruence. Qed.

(** Every run of ASCII digits is the text of a decimal number. *)
Lemma ascii_digits_uint s :
  forallb Unicode.is_ascii_digit s = true -> exists d, s = uint_str d.
Proof.
  induction s as [|c s IH]; [now exists Decimal.Nil|].
  cbn. intros [Hc Hs]%andb_true_iff. destruct (IH Hs) as [d ->].
  unfold Unicode.is_ascii_digit in Hc.
  assert (Hcase : c = 48 \/ c = 49 \/ c = 50 \/ c = 51 \/ c = 52 \/ c = 53
                  \/ c = 54 \/ c = 55 \/ c = 56 \/ c = 57) by lia.
  destruct Hcase as [->|[->|[->|[->|[->|[->|[->|[->|[->| ->]]]]]]]]].
  - now exists (Decimal.D0 d).
  - now exists (Decimal.D1 d).
  - now exists (Decimal.D2 d).
  - now exists (Decimal.D3 d).
  - now exists (Decimal.D4 d).
  - now exists (Decimal.D5 d).
  - now exists (Decimal.D6 d).
  - now exists (Decimal.D7 d).
  - now exists (Decimal.D8 d).
  - now exists (Decimal.D9 d).
Qed.

Lemma int_str_of_N n : int_str (Z.of_N n) = uint_str (N.to_uint n).
Proof. destruct n; reflexivity. Qed.

(** The number that the text of [n] writes is [n]. *)
Lemma digits_value_int_str n : 0 <= n -> digits_value (int_str n) = n.
Proof.
  intros Hn. destruct n as [|p|p]; [reflexivity| |lia].
  unfold int_str. cbn [Z.to_int].
  now rewrite fold_uint_str, DecimalPos.Unsigned.of_to.
Qed.

Lemma int_str_digits n :
  0 <= n -> Spec.digits Unicode.is_ascii_digit (int_str n).
Proof.
  intros Hn. destruct n as [|p|p]; [split; easy| |lia].
  unfold int_str. cbn [Z.to_int]. split; [|apply uint_str_digits].
  apply uint_str_nonnil, DecimalPos.Unsigned.to_uint_nonnil.
Qed.

(** The text of the number that [s] writes is [s] when [s] has no
    superfluous leading zero. *)
Lemma int_str_digits_value s :
  Spec.canonical_number s -> int_str (digits_value s) = s.
Proof.
  intros [[Hne Hall] Hcanon].
  destruct (ascii_digits_uint s Hall) as [d ->].
  rewrite fold_uint_str, int_str_of_N, DecimalPos.Unsigned.to_of. f_equal.
  destruct Hcanon as [H0|Hhd].
  - change [48] with (uint_str (Decimal.D0 Decimal.Nil)) in H0.
    apply uint_str_inj in H0. now subst d.
  - destruct d; cbn in Hne, Hhd; try easy.
Qed.

(** The text of a number is never longer than a run of digits that
    writes it. *)
Lemma length_int_str_digits_value s :
  Spec.digits Unicode.is_ascii_digit s ->
  (length (int_str (digits_value s)) <= length s)%nat.
Proof.
  intros [Hne Hall]. destruct (ascii_digits_uint s Hall) as [d ->].
  rewrite fold_uint_str, int_str_of_N, DecimalPos.Unsigned.to_of.
  rewrite !length_uint_str. apply DecimalFacts.nb_digits_unorm.
  intros ->. now apply Hne.
Qed.

Lemma int_of_digits_short s :
  Z.of_nat (length s) <= int_max_str_digits ->
  int_of_digits s = Ok (digits_value s).
Proof.
  intros H. unfold int_of_digits.
  destruct (Z.leb_spec (Z.of_nat (length s)) int_max_str_digits); [reflexivity|lia].
Qed.

Lemma int_of_digits_long s :
  int_max_str_digits < Z.of_nat (length s) ->
  int_of_digits s = Raise ValueError.
Proof.
  intros H. unfold int_of_digits.
  destruct (Z.leb_spec (Z.of_nat (length s)) int_max_str_digits); [lia|reflexivity].
Qed.

Lemma int_of_digits_cases s :
  (Z.of_nat (length s) <= int_max_str_digits
   /\ int_of_digits s = Ok (digits_value s))
  \/ (int_max_str_digits < Z.of_nat (length s)
      /\ int_of_digits s = Raise ValueError).
Proof.
  destruct (Z.le_gt_cases (Z.of_nat (length s)) int_max_str_digits).
  - left. auto using int_of_digits_short.
  - right. auto using int_of_digits_long.
Qed.

End DecimalText.

(** ** Parsing a version *)

Section Parsing.

Lemma forallb_weaken (p q : Z -> bool) s :
  (forall c, p c = true -> q c = true) ->
  forallb p s = true -> forallb q s = true.
Proof.
  intros Hpq. rewrite !forallb_forall. auto.
Qed.

Lemma digits_no_dot s :
  forallb Unicode.isdecimal s = true ->
  forallb (fun c => negb (c =? 46)) s = true.
Proof.
  apply forallb_weaken. intros c H.
  destruct (isdecimal_not_punct c H) as (H46 & _). 
  destruct (Z.eqb_spec c 46); easy.
Qed.

Lemma digits_snoc digit s :
  Spec.digits digit s -> exists s' x, s = s' ++ [x] /\ digit x = true.
Proof.
  intros [Hne Hall]. destruct (exists_last Hne) as (s' & x & ->).
  exists s', x. split; [reflexivity|].
  rewrite forallb_app in Hall. cbn in Hall. 
  apply andb_true_iff in Hall as [_ Hx]. now rewrite andb_true_r in Hx.
Qed.

Lemma digits_cons digit s :
  Spec.digits digit s -> exists x s', s = x :: s' /\ digit x = true.
Proof.
  intros [Hne Hall]. destruct s as [|x s']; [easy|].
  exists x, s'. cbn in Hall. apply andb_true_iff in Hall as [Hx _]. eauto.
Qed.

Lemma is_number_digits s :
  s <> [] -> Version.is_number s = forallb Unicode.is_ascii_digit s.
Proof. destruct s; easy. Qed.

(** The characters that reach [Version] once the leading [v] is gone. *)
Lemma lstrip_v a rest :
  Spec.digits Unicode.isdecimal a ->
  PyStr.lstrip (lit "v") (lit "v" ++ a ++ rest) = a ++ rest.
Proof.
  intros (x & a' & -> & Hx)%digits_cons.
  destruct (isdecimal_not_punct x Hx) as (_ & H118 & _).
  unfold PyStr.lstrip. lit_compute. cbn.
  destruct (Z.eqb_spec x 118); easy.
Qed.

(** The three calls of [int()]: all three numbers are read, or the first
    one that is too long raises [ValueError]. *)
Lemma ints_three a b c :
  Version.ints [a; b; c]
  = if (Z.of_nat (length a) <=? int_max_str_digits)
       && (Z.of_nat (length b) <=? int_max_str_digits)
       && (Z.of_nat (length c) <=? int_max_str_digits)
    then Ok [digits_value a; digits_value b; digits_value c]
    else Raise ValueError.
Proof.
  cbn [Version.ints]. unfold int_of_digits.
  destruct (Z.of_nat (length a) <=? int_max_str_digits); [|reflexivity].
  destruct (Z.of_nat (length b) <=? int_max_str_digits); [|reflexivity].
  destruct (Z.of_nat (length c) <=? int_max_str_digits); reflexivity.
Qed.

(** [Version] on three dotted runs of decimal digits, possibly followed
    by a line feed: outside the grammar when a digit is not an ASCII
    digit, and handed to [int()] otherwise. *)
Lemma parse_dotted a b c eol :
  Spec.digits Unicode.isdecimal a -> Spec.digits Unicode.isdecimal b ->
  Spec.digits Unicode.isdecimal c -> eol = [] \/ eol = [10] ->
  Version.parse (a ++ lit "." ++ b ++ lit "." ++ c ++ eol)
  = if forallb Unicode.is_ascii_digit (a ++ b ++ c)
    then match Version.ints [a; b; c] with
         | Ok r => Ok (Version.Make r)
         | Raise e => Raise e
         end
    else Raise InvalidVersion.
Proof.
  intros Da Db Dc Heol.
  destruct (digits_cons _ _ Da) as (a0 & a' & Ea & Ha0).
  destruct (digits_snoc _ _ Dc) as (c' & cl & Ec & Hcl).
  destruct (isdecimal_not_punct a0 Ha0) as (_ & H118 & H86 & _).
  assert (Hcore : PyStr.rstrip_ws (a ++ lit "." ++ b ++ lit "." ++ c)
                  = a ++ lit "." ++ b ++ lit "." ++ c).
  { rewrite Ec, !app_assoc.
    apply rstrip_ws_snoc_other. now apply isdecimal_not_space. }
  assert (Hstrip : PyStr.strip (a ++ lit "." ++ b ++ lit "." ++ c ++ eol)
                   = a ++ lit "." ++ b ++ lit "." ++ c).
  { unfold PyStr.strip, PyStr.lstrip_ws.
    replace (PyStr.drop_while Unicode.isspace (a ++ lit "." ++ b ++ lit "." ++ c ++ eol))
      with (a ++ lit "." ++ b ++ lit "." ++ c ++ eol)
      by (rewrite Ea; symmetry; apply drop_while_cons_false;
          now apply isdecimal_not_space).
    destruct Heol as [->| ->].
    - now rewrite app_nil_r.
    - rewrite !app_assoc. rewrite rstrip_ws_snoc_space by reflexivity.
      rewrite <- !app_assoc. exact Hcore. }
  unfold Version.parse. rewrite Hstrip.
  replace (match a ++ lit "." ++ b ++ lit "." ++ c with
           | [] => a ++ lit "." ++ b ++ lit "." ++ c
           | c0 :: s' => if (c0 =? 118) || (c0 =? 86) then s'
                         else a ++ lit "." ++ b ++ lit "." ++ c
           end) with (a ++ lit "." ++ b ++ lit "." ++ c).
  2: { rewrite Ea. cbn [app].
       destruct (Z.eqb_spec a0 118); [easy|].
       destruct (Z.eqb_spec a0 86); easy. }
  unfold Version.release_parts. lit_compute.
  destruct Da as [Na Fa], Db as [Nb Fb], Dc as [Nc Fc].
  rewrite split_app_sep by now apply digits_no_dot.
  rewrite split_app_sep by now apply digits_no_dot.
  rewrite split_no_sep by now apply digits_no_dot.
  cbn [forallb]. rewrite !is_number_digits by assumption.
  rewrite !forallb_app, andb_true_r, andb_assoc.
  destruct (_ && _); reflexivity.
Qed.

End Parsing.

(** ** From a tag to a candidate *)

Section Candidates.

(** A tag of the shape of the pattern: no candidate when a digit is not
    an ASCII digit, [ValueError] from [int()] when a number is too long,
    a candidate otherwise. *)
Lemma version_of_tag_shaped a b c eol :
  Spec.digits Unicode.isdecimal a -> Spec.digits Unicode.isdecimal b ->
  Spec.digits Unicode.isdecimal c -> eol = [] \/ eol = [10] ->
  version_of_tag (lit "v" ++ a ++ lit "." ++ b ++ lit "." ++ c ++ eol)
  = if forallb Unicode.is_ascii_digit (a ++ b ++ c)
    then if (Z.of_nat (length a) <=? int_max_str_digits)
            && (Z.of_nat (length b) <=? int_max_str_digits)
            && (Z.of_nat (length c) <=? int_max_str_digits)
         then Ok (Some (Version.Make
                          [digits_value a; digits_value b; digits_value c]))
         else Raise ValueError
    else Ok None.
Proof.
  intros Da Db Dc Heol. unfold version_of_tag.
  assert (Hm : Re.matches TAG_PATTERN
                 (lit "v" ++ a ++ lit "." ++ b ++ lit "." ++ c ++ eol) = true).
  { apply tag_pattern_spec.
    exists (lit "v" ++ a ++ lit "." ++ b ++ lit "." ++ c), eol.
    split; [now rewrite <- !app_assoc|]. split; [|assumption].
    now exists a, b, c. }
  rewrite Hm, lstrip_v by assumption.
  rewrite parse_dotted by assumption.
  destruct (forallb _ _); [|reflexivity].
  rewrite ints_three. destruct (_ && _); reflexivity.
Qed.

(** Every tag the pattern accepts has the shape above. *)
Lemma matches_shaped tag :
  Re.matches TAG_PATTERN tag = true ->
  exists a b c eol,
    tag = lit "v" ++ a ++ lit "." ++ b ++ lit "." ++ c ++ eol
    /\ Spec.digits Unicode.isdecimal a /\ Spec.digits Unicode.isdecimal b
    /\ Spec.digits Unicode.isdecimal c /\ (eol = [] \/ eol = [10]).
Proof.
  intros (core & eol & -> & (a & b & c & -> & Da & Db & Dc) & Heol)%tag_pattern_spec.
  exists a, b, c, eol. rewrite <- !app_assoc. auto.
Qed.

(** The step from a tag to a candidate raises nothing but the
    [ValueError] of [int()]. *)
Lemma version_of_tag_raise tag e : version_of_tag tag = Raise e -> e = ValueError.
Proof.
  destruct (Re.matches TAG_PATTERN tag) eqn:E.
  - apply matches_shaped in E as (a & b & c & eol & -> & Da & Db & Dc & Heol).
    rewrite version_of_tag_shaped by assumption.
    destruct (forallb _ _); [|discriminate].
    destruct (_ && _); [discriminate|]. now intros [= <-].
  - unfold version_of_tag. rewrite E. discriminate.
Qed.

Lemma ascii_digits_decimal s :
  Spec.digits Unicode.is_ascii_digit s -> Spec.digits Unicode.isdecimal s.
Proof.
  intros [Hne Hall]. split; [assumption|].
  revert Hall. apply forallb_weaken, ascii_digit_isdecimal.
Qed.

Lemma within_limit_true (a b c : str) :
  Z.of_nat (length a) <= int_max_str_digits ->
  Z.of_nat (length b) <= int_max_str_digits ->
  Z.of_nat (length c) <= int_max_str_digits ->
  (Z.of_nat (length a) <=? int_max_str_digits)
  && (Z.of_nat (length b) <=? int_max_str_digits)
  && (Z.of_nat (length c) <=? int_max_str_digits) = true.
Proof. intros. rewrite !andb_true_iff, !Z.leb_le. auto. Qed.

Lemma within_limit_inv (a b c : str) :
  (Z.of_nat (length a) <=? int_max_str_digits)
  && (Z.of_nat (length b) <=? int_max_str_digits)
  && (Z.of_nat (length c) <=? int_max_str_digits) = true ->
  Z.of_nat (length a) <= int_max_str_digits
  /\ Z.of_nat (length b) <= int_max_str_digits
  /\ Z.of_nat (length c) <= int_max_str_digits.
Proof. rewrite !andb_true_iff, !Z.leb_le. tauto. Qed.

Lemma version_of_tag_some tag v :
  version_of_tag tag = Ok (Some v) <->
  exists a b c eol,
    tag = lit "v" ++ a ++ lit "." ++ b ++ lit "." ++ c ++ eol
    /\ Spec.number a /\ Spec.number b /\ Spec.number c
    /\ (eol = [] \/ eol = [10])
    /\ v = Version.Make [digits_value a; digits_value b; digits_value c].
Proof.
  split.
  - intros H. destruct (Re.matches TAG_PATTERN tag) eqn:E.
    + apply matches_shaped in E as (a & b & c & eol & -> & Da & Db & Dc & Heol).
      rewrite version_of_tag_shaped in H by assumption.
      destruct (forallb _ _) eqn:F; [|discriminate].
      destruct (_ && _) eqn:L; [|discriminate]. injection H as <-.
      apply within_limit_inv in L as (La & Lb & Lc).
      rewrite !forallb_app in F.
      apply andb_true_iff in F as [Fa [Fb Fc]%andb_true_iff].
      exists a, b, c, eol. destruct Da, Db, Dc.
      unfold Spec.number, Spec.digits. auto 15.
    + unfold version_of_tag in H. rewrite E in H. discriminate.
  - intros (a & b & c & eol & -> & [Da La] & [Db Lb] & [Dc Lc] & Heol & ->).
    rewrite version_of_tag_shaped by (auto using ascii_digits_decimal).
    destruct Da as [_ Fa], Db as [_ Fb], Dc as [_ Fc].
    now rewrite !forallb_app, Fa, Fb, Fc, within_limit_true.
Qed.

Lemma version_of_tag_three_part tag v :
  version_of_tag tag = Ok (Some v) -> Spec.three_part v.
Proof.
  intros (a & b & c & eol & _ & _ & _ & _ & _ & ->)%version_of_tag_some.
  exists (digits_value a), (digits_value b), (digits_value c).
  auto using digits_value_nonneg.
Qed.

Lemma number_rendered s :
  Spec.number s ->
  Z.of_nat (length (int_str (digits_value s))) <= int_max_str_digits.
Proof.
  intros [D L]. pose proof (length_int_str_digits_value s D). lia.
Qed.

(** The numbers of a candidate are short enough for [str()]. *)
Lemma version_of_tag_rendered tag v :
  version_of_tag tag = Ok (Some v) -> Spec.rendered_within_limit v.
Proof.
  intros (a & b & c & eol & _ & Na & Nb & Nc & _ & ->)%version_of_tag_some.
  unfold Spec.rendered_within_limit. cbn [Version.release].
  repeat constructor; now apply number_rendered.
Qed.

(** *** One line *)

Lemma unpack_second_ok parts ref :
  unpack_second parts = Ok ref <-> exists oid, parts = [oid; ref].
Proof.
  split.
  - destruct parts as [|oid [|r [|x parts]]]; cbn; try discriminate.
    intros [= ->]. eauto.
  - intros [oid ->]. reflexivity.
Qed.

Lemma unpack_second_split line :
  match unpack_second (PyStr.split 9 line) with
  | Ok _ => PyStr.count 9 line = 1%nat
  | Raise e => e = ValueError /\ PyStr.count 9 line <> 1%nat
  end.
Proof.
  pose proof (length_split 9 line) as H.
  destruct (PyStr.split 9 line) as [|oid [|r [|x parts]]]; cbn in *;
    (lia || (split; [reflexivity|lia])).
Qed.

(** A line raises [ValueError] when it has not exactly one tab; with one
    tab its second field decides. *)
Lemma scan_line_cases line :
  (PyStr.count 9 line <> 1%nat /\ scan_line line = Raise ValueError)
  \/ (PyStr.count 9 line = 1%nat /\
      exists oid ref, PyStr.split 9 line = [oid; ref]
        /\ scan_line line = version_of_tag (tag_of_ref ref)).
Proof.
  unfold scan_line. pose proof (unpack_second_split line) as H.
  destruct (unpack_second (PyStr.split 9 line)) as [ref|e] eqn:E.
  - right. split; [assumption|].
    apply unpack_second_ok in E as [oid E].
    exists oid, ref. cbn. auto.
  - left. destruct H as [-> H]. auto.
Qed.

Lemma scan_line_raise line e : scan_line line = Raise e -> e = ValueError.
Proof.
  destruct (scan_line_cases line) as [[_ ->]|[_ (oid & ref & _ & ->)]].
  - now intros [= <-].
  - apply version_of_tag_raise.
Qed.

Lemma scan_line_ok_count line o :
  scan_line line = Ok o -> PyStr.count 9 line = 1%nat.
Proof.
  destruct (scan_line_cases line) as [[_ ->]|[H _]]; [discriminate|auto].
Qed.

Lemma scan_line_some line v :
  scan_line line = Ok (Some v) ->
  Spec.three_part v /\ Spec.rendered_within_limit v.
Proof.
  destruct (scan_line_cases line) as [[_ ->]|[_ (oid & ref & _ & ->)]];
    [discriminate|].
  eauto using version_of_tag_three_part, version_of_tag_rendered.
Qed.

(** *** The loop over the lines *)

Lemma scan_lines_acc lines acc :
  scan_lines lines acc
  = match scan_lines lines [] with
    | Ok found => Ok (acc ++ found)
    | Raise e => Raise e
    end.
Proof.
  revert acc. induction lines as [|line rest IH]; intros acc; cbn.
  - now rewrite app_nil_r.
  - destruct (scan_line line) as [[v|]|e]; cbn; [|apply IH|reflexivity].
    rewrite IH, (IH [v]).
    destruct (scan_lines rest []); [|reflexivity]. now rewrite <- app_assoc.
Qed.

(** The loop raises when one of its lines does, and only [ValueError]. *)
Lemma scan_lines_raise lines e :
  scan_lines lines [] = Raise e ->
  e = ValueError
  /\ exists line, In line lines /\ scan_line line = Raise ValueError.
Proof.
  induction lines as [|line rest IH]; cbn; [discriminate|].
  destruct (scan_line line) as [o|e'] eqn:El; cbn.
  - rewrite scan_lines_acc. destruct (scan_lines rest []) eqn:E; [discriminate|].
    intros [= <-]. destruct (IH eq_refl) as [-> (l & Hl & Hn)].
    split; [reflexivity|]. exists l. auto.
  - intros [= <-]. pose proof (scan_line_raise _ _ El) as ->.
    split; [reflexivity|]. exists line. auto.
Qed.

Lemma scan_lines_ok lines tags :
  scan_lines lines [] = Ok tags ->
  forall line, In line lines -> exists o, scan_line line = Ok o.
Proof.
  revert tags. induction lines as [|line rest IH]; intros tags; cbn; [easy|].
  destruct (scan_line line) as [o|e'] eqn:El; cbn; [|discriminate].
  rewrite scan_lines_acc. destruct (scan_lines rest []) eqn:E; [|discriminate].
  intros _ l [<-|Hl]; [eauto|]. eapply IH; eauto.
Qed.

Lemma scan_lines_ok_count lines tags :
  scan_lines lines [] = Ok tags ->
  forall line, In line lines -> PyStr.count 9 line = 1%nat.
Proof.
  intros H line Hl. destruct (scan_lines_ok _ _ H line Hl) as [o Ho].
  eapply scan_line_ok_count, Ho.
Qed.

(** A line that raises makes the loop raise. *)
Lemma scan_lines_bad_line lines line :
  In line lines -> scan_line line = Raise ValueError ->
  scan_lines lines [] = Raise ValueError.
Proof.
  intros Hl Hr. destruct (scan_lines lines []) as [tags|e] eqn:E.
  - destruct (scan_lines_ok _ _ E line Hl) as [o Ho]. congruence.
  - now destruct (scan_lines_raise _ _ E) as [-> _].
Qed.

(** A part of the lines of a listing that scans does scan. *)
Lemma scan_lines_incl_ok lines lines' tags' :
  incl lines lines' -> scan_lines lines' [] = Ok tags' ->
  exists tags, scan_lines lines [] = Ok tags.
Proof.
  intros Hincl H'. destruct (scan_lines lines []) as [tags|x] eqn:E; [eauto|].
  destruct (scan_lines_raise _ _ E) as [_ (l & Hl & Hr)].
  destruct (scan_lines_ok _ _ H' l (Hincl l Hl)) as [o Ho]. congruence.
Qed.

Lemma scan_lines_three_part lines tags :
  scan_lines lines [] = Ok tags -> Forall Spec.three_part tags.
Proof.
  revert tags. induction lines as [|line rest IH]; intros tags; cbn.
  - intros [= <-]. constructor.
  - destruct (scan_line line) as [o|e'] eqn:El; cbn; [|discriminate].
    rewrite scan_lines_acc. destruct (scan_lines rest []) eqn:E; [|discriminate].
    intros [= <-]. apply Forall_app. split; [|now apply IH].
    destruct o as [v|]; constructor; [|constructor].
    eapply scan_line_some, El.
Qed.

Lemma scan_lines_rendered lines tags :
  scan_lines lines [] = Ok tags -> Forall Spec.rendered_within_limit tags.
Proof.
  revert tags. induction lines as [|line rest IH]; intros tags; cbn.
  - intros [= <-]. constructor.
  - destruct (scan_line line) as [o|e'] eqn:El; cbn; [|discriminate].
    rewrite scan_lines_acc. destruct (scan_lines rest []) eqn:E; [|discriminate].
    intros [= <-]. apply Forall_app. split; [|now apply IH].
    destruct o as [v|]; constructor; [|constructor].
    eapply scan_line_some, El.
Qed.

End Candidates.

(** ** The order of versions and the choice of the latest *)

Section Latest.

Lemma key_three v x y z :
  Version.release v = [x; y; z] ->
  Version.key v
  = if 0 =? z then (if 0 =? y then (if 0 =? x then [] else [x]) else [x; y])
    else [x; y; z].
Proof.
  intros H. unfold Version.key. rewrite H.
  change (rev [x; y; z]) with [z; y; x]. cbn [PyStr.drop_while].
  destruct (0 =? z), (0 =? y), (0 =? x); reflexivity.
Qed.

(** On versions of three numbers the comparison of the keys, from which
    trailing zeros are dropped, is the order of the specification. *)
Lemma lt_semver a b :
  Spec.three_part a -> Spec.three_part b ->
  Version.lt a b = true <-> Spec.semver_lt a b.
Proof.
  intros (x & y & z & Ha & Hx & Hy & Hz) (x' & y' & z' & Hb & Hx' & Hy' & Hz').
  unfold Version.lt, Spec.semver_lt,
    Version.major, Version.minor, Version.micro.
  rewrite (key_three a x y z Ha), (key_three b x' y' z' Hb), Ha, Hb.
  cbn [nth].
  destruct (Z.eqb_spec 0 z), (Z.eqb_spec 0 y), (Z.eqb_spec 0 x),
    (Z.eqb_spec 0 z'), (Z.eqb_spec 0 y'), (Z.eqb_spec 0 x');
    cbn [Version.tuple_lt];
    repeat (case Z.ltb_spec; intros); split; (lia || easy).
Qed.

Lemma semver_le_refl a : Spec.semver_le a a.
Proof. right. repeat split. Qed.

Lemma semver_le_trans a b c :
  Spec.semver_le a b -> Spec.semver_le b c -> Spec.semver_le a c.
Proof. unfold Spec.semver_le, Spec.semver_lt, Spec.semver_eq. lia. Qed.

Lemma semver_lt_le a b : Spec.semver_lt a b -> Spec.semver_le a b.
Proof. now left. Qed.

Lemma semver_not_lt a b : ~ Spec.semver_lt a b -> Spec.semver_le b a.
Proof. unfold Spec.semver_le, Spec.semver_lt, Spec.semver_eq. lia. Qed.

Lemma keep_greater_spec best t :
  Spec.three_part best -> Spec.three_part t ->
  (keep_greater best t = best \/ keep_greater best t = t)
  /\ Spec.semver_le best (keep_greater best t)
  /\ Spec.semver_le t (keep_greater best t).
Proof.
  intros Hb Ht. unfold keep_greater, Version.gt.
  pose proof (lt_semver best t Hb Ht) as H.
  destruct (Version.lt best t).
  - split; [now right|]. split; [|apply semver_le_refl].
    apply semver_lt_le, H. reflexivity.
  - split; [now left|]. split; [apply semver_le_refl|].
    apply semver_not_lt. intros Hlt. apply H in Hlt. discriminate.
Qed.

Lemma fold_keep_greater rest v :
  Forall Spec.three_part (v :: rest) ->
  let m := fold_left keep_greater rest v in
  In m (v :: rest) /\ forall t, In t (v :: rest) -> Spec.semver_le t m.
Proof.
  revert v. induction rest as [|t rest IH]; intros v Hall; cbn.
  - split; [now left|]. intros t [<-|[]]. apply semver_le_refl.
  - apply Forall_cons_iff in Hall as [Hv Hall].
    apply Forall_cons_iff in Hall as [Ht Hrest].
    destruct (keep_greater_spec v t Hv Ht) as (Hk & Hvk & Htk).
    assert (Hk3 : Spec.three_part (keep_greater v t))
      by (destruct Hk as [->| ->]; assumption).
    destruct (IH (keep_greater v t)) as [Hin Hmax]; [now constructor|].
    split.
    + destruct Hin as [Hin|Hin]; [|auto].
      rewrite <- Hin. destruct Hk as [->| ->]; auto.
    + intros u [<-|[<-|Hu]].
      * eapply semver_le_trans; [exact Hvk|]. apply Hmax. now left.
      * eapply semver_le_trans; [exact Htk|]. apply Hmax. now left.
      * apply Hmax. now right.
Qed.

(** [max] of a non-empty list of three-part versions: an element of the
    list that no element exceeds. *)
Lemma py_max_spec versions :
  versions <> [] -> Forall Spec.three_part versions ->
  exists m, py_max versions = Ok m /\ In m versions
            /\ forall t, In t versions -> Spec.semver_le t m.
Proof.
  destruct versions as [|v rest]; [easy|]. intros _ Hall.
  exists (fold_left keep_greater rest v). split; [reflexivity|].
  now apply fold_keep_greater.
Qed.

(** The part of [get_latest_tag] after the loop. *)
Lemma get_latest_tag_after_loop w repo major output tags :
  git_ls_remote_tags w repo = inr output ->
  scan_lines (listing_lines output) [] = Ok tags ->
  get_latest_tag w repo major = latest_of tags major.
Proof.
  intros Hls Hscan. unfold get_latest_tag, check_output.
  rewrite Hls. cbn. now rewrite Hscan.
Qed.

Lemma latest_of_nonempty tags major :
  tags <> [] ->
  latest_of tags major
  = (latest ← py_max (match List.filter (major_matches major) tags with
                      | [] => tags
                      | _ => List.filter (major_matches major) tags
                      end);
     Ok (Some (lit "v" ++ Version.to_str latest))).
Proof. destruct tags; [easy|reflexivity]. Qed.

(** Among three-part versions, the result is the greatest of those the
    major filter keeps, or of all when it keeps none. *)
Lemma latest_of_spec tags major :
  tags <> [] -> Forall Spec.three_part tags ->
  exists m,
    latest_of tags major = Ok (Some (lit "v" ++ Version.to_str m))
    /\ In m tags
    /\ ((exists t, In t tags /\ major_matches major t = true) ->
        major_matches major m = true
        /\ forall t, In t tags -> major_matches major t = true ->
                     Spec.semver_le t m)
    /\ ((forall t, In t tags -> major_matches major t = false) ->
        forall t, In t tags -> Spec.semver_le t m).
Proof.
  intros Hne Hall. rewrite latest_of_nonempty by assumption.
  destruct (List.filter (major_matches major) tags) as [|u us] eqn:Ef.
  - destruct (py_max_spec tags) as (m & -> & Hin & Hmax); [assumption..|].
    exists m. split; [reflexivity|]. split; [assumption|]. split.
    + intros (t & Ht & Hm). exfalso.
      assert (Hf : In t (List.filter (major_matches major) tags))
        by (apply filter_In; auto).
      rewrite Ef in Hf. destruct Hf.
    + intros _. exact Hmax.
  - destruct (py_max_spec (u :: us)) as (m & Hm & Hin & Hmax); [discriminate| |].
    { rewrite <- Ef. rewrite List.Forall_forall in Hall |- *.
      intros t [Ht _]%filter_In. auto. }
    rewrite <- Ef in Hin, Hmax. apply filter_In in Hin as [Hin Hmm].
    rewrite Hm. exists m. split; [reflexivity|]. split; [assumption|]. split.
    + intros _. split; [assumption|].
      intros t Ht Htm. apply Hmax, filter_In. auto.
    + intros Hnone. rewrite (Hnone m Hin) in Hmm. discriminate.
Qed.

Lemma filter_all_true (f : Version.t -> bool) l :
  (forall t, In t l -> f t = true) -> List.filter f l = l.
Proof.
  induction l as [|t l IH]; [reflexivity|]. intros H. cbn.
  rewrite (H t) by now left. rewrite IH; [reflexivity|].
  intros u Hu. apply H. now right.
Qed.

End Latest.

(** ** The loop over the repositories *)

Section Repositories.

Variable w : World.
Variable major : option Z.

Lemma resolve_all_acc repos apps :
  resolve_all w major repos apps
  = match resolve_all w major repos [] with
    | Ok es => Ok (apps ++ es)
    | Raise x => Raise x
    end.
Proof.
  revert apps. induction repos as [|repo rest IH]; intros apps; cbn.
  - now rewrite app_nil_r.
  - destruct (get_latest_tag w repo major) as [tag|x]; cbn; [|reflexivity].
    rewrite IH, (IH [_]).
    destruct (resolve_all w major rest []); [|reflexivity].
    now rewrite <- app_assoc.
Qed.

Lemma resolve_all_cons repo rest :
  resolve_all w major (repo :: rest) []
  = match get_latest_tag w repo major with
    | Ok tag =>
        match resolve_all w major rest [] with
        | Ok es => Ok ({| git_url := repo; branch := tag_or_main tag |} :: es)
        | Raise x => Raise x
        end
    | Raise x => Raise x
    end.
Proof.
  cbn. destruct (get_latest_tag w repo major); cbn; [|reflexivity].
  now rewrite resolve_all_acc.
Qed.

Lemma resolve_all_ok repos apps :
  resolve_all w major repos [] = Ok apps -> Forall2 (Spec.resolved w major) repos apps.
Proof.
  revert apps. induction repos as [|repo rest IH]; intros apps.
  - intros [= <-]. constructor.
  - rewrite resolve_all_cons.
    destruct (get_latest_tag w repo major) as [tag|x] eqn:E; [|discriminate].
    destruct (resolve_all w major rest []) as [es|x]; [|discriminate].
    intros [= <-]. constructor; [|now apply IH].
    split; [reflexivity|]. exists tag. auto.
Qed.

Lemma resolve_all_total repos :
  (forall repo, In repo repos -> exists tag, get_latest_tag w repo major = Ok tag) ->
  exists apps, resolve_all w major repos [] = Ok apps.
Proof.
  induction repos as [|repo rest IH]; intros H; [now exists []|].
  rewrite resolve_all_cons.
  destruct (H repo) as [tag ->]; [now left|].
  destruct IH as [es ->]; [intros r Hr; apply H; now right|]. eauto.
Qed.

(** The exception of a run is that of the first repository that fails. *)
Lemma resolve_all_first_failure pre repo post x :
  (forall r, In r pre -> exists tag, get_latest_tag w r major = Ok tag) ->
  get_latest_tag w repo major = Raise x ->
  resolve_all w major (pre ++ repo :: post) [] = Raise x.
Proof.
  induction pre as [|r pre IH]; intros Hpre Hx.
  - cbn [app]. now rewrite resolve_all_cons, Hx.
  - cbn [app]. rewrite resolve_all_cons.
    destruct (Hpre r) as [tag ->]; [now left|].
    rewrite IH; [reflexivity| |assumption].
    intros r' Hr'. apply Hpre. now right.
Qed.

Lemma resolve_all_failure repos repo x :
  In repo repos -> get_latest_tag w repo major = Raise x ->
  exists x', resolve_all w major repos [] = Raise x'.
Proof.
  induction repos as [|r rest IH]; intros Hin Hx; [destruct Hin|].
  rewrite resolve_all_cons.
  destruct (get_latest_tag w r major) as [tag|x'] eqn:E; [|eauto].
  destruct Hin as [->|Hin]; [congruence|].
  destruct (IH Hin Hx) as [x' ->]. eauto.
Qed.

Lemma transport_error_raised repo e :
  git_ls_remote_tags w repo = inl e ->
  get_latest_tag w repo major = Raise (SubprocessError e).
Proof.
  intros H. unfold get_latest_tag, check_output. now rewrite H.
Qed.

End Repositories.

(** ** The text of the manifest *)

Section Manifest.

Lemma hexdigit_printable d : 0 <= d < 16 -> Spec.printable (Json.hexdigit d).
Proof. unfold Json.hexdigit, Spec.printable. case Z.ltb_spec; lia. Qed.

Lemma u_escape_printable n : Forall Spec.printable (Json.u_escape n).
Proof.
  unfold Json.u_escape, Json.hex4.
  repeat constructor; try (unfold Spec.printable; lia);
    apply hexdigit_printable, Z.mod_pos_bound; lia.
Qed.

Lemma escape_char_printable c : Forall Spec.printable (Json.escape_char c).
Proof.
  unfold Json.escape_char.
  repeat match goal with
         | |- context [if ?b then _ else _] => destruct b eqn:?
         end;
    try (apply Forall_app; split); try apply u_escape_printable;
    repeat constructor; unfold Spec.printable; lia.
Qed.

Lemma encode_basestring_printable s :
  Forall Spec.printable (Json.encode_basestring_ascii s).
Proof.
  unfold Json.encode_basestring_ascii.
  constructor; [unfold Spec.printable; lia|]. apply Forall_app. split.
  - induction s as [|c s IH]; cbn; [constructor|].
    apply Forall_app. split; [apply escape_char_printable|exact IH].
  - repeat constructor; unfold Spec.printable; lia.
Qed.

Lemma printable_seven_bit s : Forall Spec.printable s -> Forall Spec.seven_bit s.
Proof. apply List.Forall_impl. unfold Spec.printable, Spec.seven_bit. lia. Qed.

(** A plain character is written as it is. *)
Lemma escape_char_plain c : Spec.plain c = true -> Json.escape_char c = [c].
Proof.
  unfold Spec.plain, Json.escape_char.
  intros [[[H1 H2]%andb_true_iff H3]%andb_true_iff H4]%andb_true_iff.
  apply negb_true_iff in H3, H4. now rewrite H3, H4, H1, H2.
Qed.

(** A string of plain characters is written between two quotes. *)
Lemma encode_plain s :
  forallb Spec.plain s = true -> Json.encode_basestring_ascii s = Spec.quoted s.
Proof.
  intros H. unfold Json.encode_basestring_ascii, Spec.quoted. cbn [app].
  do 2 f_equal. induction s as [|c s IH]; [reflexivity|].
  cbn in H. apply andb_true_iff in H as [Hc Hs].
  cbn [map concat]. now rewrite escape_char_plain, IH.
Qed.

Lemma join_seven_bit sep parts :
  Forall Spec.seven_bit sep -> Forall (Forall Spec.seven_bit) parts ->
  Forall Spec.seven_bit (PyStr.join sep parts).
Proof.
  intros Hsep. induction 1 as [|p ps Hp Hps IH]; [constructor|].
  cbn. destruct ps as [|q ps]; [assumption|].
  apply Forall_app. split; [assumption|].
  apply Forall_app. split; assumption.
Qed.

Lemma encode_entry_seven_bit e :
  Forall Spec.seven_bit (Json.encode 1 (entry_value e)).
Proof.
  unfold entry_value. cbn [Json.encode map fst snd PyStr.join].
  unfold Json.newline_indent. cbn [repeat Nat.mul Nat.add]. lit_compute.
  repeat first
    [ apply Forall_app; split
    | apply printable_seven_bit, encode_basestring_printable
    | constructor; [unfold Spec.seven_bit; lia|]
    | constructor ].
Qed.

(** [json.dumps] escapes what is not printable ASCII, so its text is
    seven-bit whatever the entries hold. *)
Lemma dumps_seven_bit apps :
  Forall Spec.seven_bit (Json.dumps (apps_value apps) ++ [10]).
Proof.
  unfold Json.dumps, apps_value. apply Forall_app.
  split; [|repeat (constructor; [unfold Spec.seven_bit; lia|]); constructor].
  destruct apps as [|e apps].
  - cbn. lit_compute.
    repeat (constructor; [unfold Spec.seven_bit; lia|]). constructor.
  - remember (e :: apps) as es eqn:Ees. cbn [Json.encode].
    destruct (map entry_value es) as [|x xs] eqn:Ex; [subst es; discriminate|].
    rewrite <- Ex. unfold Json.newline_indent. cbn [repeat Nat.mul Nat.add].
    lit_compute.
    repeat first
      [ apply Forall_app; split
      | constructor; [unfold Spec.seven_bit; lia|]
      | constructor ].
    apply join_seven_bit;
      [repeat (constructor; [unfold Spec.seven_bit; lia|]); constructor|].
    rewrite map_map. apply List.Forall_forall.
    intros p (e' & <- & _)%in_map_iff. apply encode_entry_seven_bit.
Qed.

Lemma byte_value_of_Z c : 0 <= c < 256 -> Spec.byte_value (byte_of_Z c) = c.
Proof.
  intros Hc. unfold Spec.byte_value, byte_of_Z.
  destruct (Byte.of_N (Z.to_N c)) as [b|] eqn:E.
  - cbn. apply Byte.to_of_N in E. rewrite E. lia.
  - apply Byte.of_N_None_iff in E. lia.
Qed.

(** Seven-bit text is written one byte for each character, with the
    same bytes in every encoding of the model. *)
Lemma encode_str_seven_bit enc s :
  Forall Spec.seven_bit s -> encode_str enc s = Ok (map byte_of_Z s).
Proof.
  induction 1 as [|c s Hc Hs IH]; [reflexivity|].
  cbn [encode_str]. rewrite IH.
  assert (encode_char enc c = Some [byte_of_Z c]) as ->; [|reflexivity].
  unfold Spec.seven_bit in Hc.
  destruct enc; unfold encode_char, utf8_char;
    repeat (case Z.ltb_spec; intros; try lia);
    repeat (case Z.leb_spec; intros; try lia); reflexivity.
Qed.

(** Those bytes are UTF-8 for the text. *)
Lemma utf8_decode_seven_bit s :
  Forall Spec.seven_bit s -> Spec.utf8_decode (map byte_of_Z s) = Some s.
Proof.
  induction 1 as [|c s Hc Hs IH]; [reflexivity|].
  unfold Spec.seven_bit in Hc. cbn [map Spec.utf8_decode].
  rewrite byte_value_of_Z by lia.
  destruct (Z.ltb_spec c 128); [|lia]. now rewrite IH.
Qed.

Lemma join_indent (sep pre : str) (parts : list str) :
  parts <> [] ->
  pre ++ PyStr.join (sep ++ pre) parts
  = PyStr.join sep (map (app pre) parts).
Proof.
  induction parts as [|p ps IH]; [easy|]. intros _.
  destruct ps as [|q ps]; [reflexivity|].
  change (PyStr.join (sep ++ pre) (p :: q :: ps))
    with (p ++ (sep ++ pre) ++ PyStr.join (sep ++ pre) (q :: ps)).
  change (PyStr.join sep (map (app pre) (p :: q :: ps)))
    with ((pre ++ p) ++ sep ++ PyStr.join sep (map (app pre) (q :: ps))).
  rewrite <- IH by discriminate. now rewrite <- !app_assoc.
Qed.

Lemma encode_entry e :
  forallb Spec.plain (git_url e) = true ->
  forallb Spec.plain (branch e) = true ->
  lit "  " ++ Json.encode 1 (entry_value e) = Spec.entry_text e.
Proof.
  intros Hu Hb.
  unfold Spec.entry_text, entry_value. cbn [Json.encode map fst snd PyStr.join].
  rewrite (encode_plain (git_url e) Hu), (encode_plain (branch e) Hb).
  rewrite (encode_plain (lit "git_url")) by reflexivity.
  rewrite (encode_plain (lit "branch")) by reflexivity.
  unfold Json.newline_indent. cbn [repeat Nat.mul Nat.add]. lit_compute.
  repeat (rewrite <- ?app_assoc; cbn [app]). reflexivity.
Qed.

Lemma join_entries apps :
  PyStr.join [44; 10] (map Spec.entry_text apps) = Spec.entries_text apps.
Proof.
  induction apps as [|e rest IH]; [reflexivity|].
  destruct rest as [|e' rest]; [reflexivity|].
  change (PyStr.join [44; 10] (map Spec.entry_text (e :: e' :: rest)))
    with (Spec.entry_text e ++ [44; 10]
          ++ PyStr.join [44; 10] (map Spec.entry_text (e' :: rest))).
  rewrite IH. reflexivity.
Qed.

(** [json.dumps(apps, indent=2) + "\n"] is the text of the
    specification when the fields hold plain characters only. *)
Lemma dumps_manifest apps :
  Forall (fun e => forallb Spec.plain (git_url e) = true
                   /\ forallb Spec.plain (branch e) = true) apps ->
  Json.dumps (apps_value apps) ++ [10] = Spec.manifest_text apps.
Proof.
  intros Hplain.
  unfold Json.dumps, apps_value, Spec.manifest_text.
  destruct apps as [|e apps]; [reflexivity|].
  remember (e :: apps) as es eqn:Ees.
  assert (Hne : map entry_value es <> []) by (subst es; discriminate).
  cbn [Json.encode].
  destruct (map entry_value es) as [|x xs] eqn:Ex; [easy|]. rewrite <- Ex.
  unfold Json.newline_indent. cbn [repeat Nat.mul Nat.add]. lit_compute.
  rewrite map_map.
  change (44 :: 10 :: [32; 32]) with ([44; 10] ++ [32; 32]).
  assert (H : [32; 32] ++ PyStr.join ([44; 10] ++ [32; 32])
                (map (fun e => Json.encode 1 (entry_value e)) es)
              = PyStr.join [44; 10] (map Spec.entry_text es)).
  { rewrite join_indent by (subst es; discriminate).
    rewrite map_map. f_equal. apply map_ext_in. intros e' He'.
    rewrite List.Forall_forall in Hplain.
    destruct (Hplain e' He'). now apply encode_entry. }
  rewrite <- join_entries, <- H.
  repeat (rewrite <- ?app_assoc; cbn [app]). reflexivity.
Qed.

End Manifest.

(** ** From a ref to a tag *)

Section Refs.

Lemma peel_foreign c :
  In c (lit "^{}") -> ~ In c (lit "refs/tags/").
Proof.
  lit_compute. intros [<-|[<-|[<-|[]]]]; cbn; lia.
Qed.

(** The [^{}] at the end of a ref is removed before the pattern is
    tried. *)
Lemma tag_of_ref_peeled ref :
  tag_of_ref (ref ++ lit "^{}") = PyStr.replace (lit "refs/tags/") [] ref.
Proof.
  unfold tag_of_ref.
  rewrite replace_foreign_suffix by (discriminate || apply peel_foreign).
  replace (PyStr.endswith _ _) with true
    by (symmetry; apply endswith_spec; eauto).
  apply (take_without_suffix _ (lit "^{}")).
Qed.

Lemma tag_of_ref_plain ref :
  PyStr.endswith (PyStr.replace (lit "refs/tags/") [] ref) (lit "^{}") = false ->
  tag_of_ref ref = PyStr.replace (lit "refs/tags/") [] ref.
Proof. intros H. unfold tag_of_ref. now rewrite H. Qed.

Lemma endswith_peel_caret s :
  PyStr.endswith s (lit "^{}") = true -> In 94 s.
Proof.
  intros [r ->]%endswith_spec. apply in_or_app. right. now left.
Qed.

Lemma replace_prefixed name :
  PyStr.replace (lit "refs/tags/") [] (lit "refs/tags/" ++ name)
  = PyStr.replace (lit "refs/tags/") [] name.
Proof. reflexivity. Qed.

(** For a name in which [refs/tags/] does not occur, removing every
    occurrence from the ref removes the prefix and nothing else. *)
Lemma tag_of_ref_prefixed name :
  PyStr.contains name (lit "refs/tags/") = false ->
  tag_of_ref (lit "refs/tags/" ++ name) = Spec.unpeeled name.
Proof.
  intros H. unfold tag_of_ref, Spec.unpeeled.
  rewrite replace_prefixed. unfold PyStr.replace.
  now rewrite replace_from_absent.
Qed.

Lemma In_take (n : nat) (l : str) c : In c (take n l) -> In c l.
Proof.
  intros H. rewrite <- (take_drop n l). apply in_or_app. now left.
Qed.

Lemma In_unpeeled name c : In c (Spec.unpeeled name) -> In c name.
Proof.
  unfold Spec.unpeeled. destruct (PyStr.endswith _ _); [apply In_take|easy].
Qed.

Lemma split_In sep s p c : In p (PyStr.split sep s) -> In c p -> In c s.
Proof.
  revert p. induction s as [|d s IH]; intros p; cbn.
  - intros [<-|[]] [].
  - destruct (d =? sep).
    + intros [<-|Hp]; [easy|]. right. eapply IH; eauto.
    + destruct (PyStr.split sep s) as [|q qs] eqn:E; cbn.
      * intros [<-|[]] [<-|[]]. now left.
      * intros [<-|Hp] Hc.
        -- destruct Hc as [<-|Hc]; [now left|]. right.
           apply (IH q); [now left|assumption].
        -- right. apply (IH p); [now right|assumption].
Qed.

(** No line of a listing holds a line feed. *)
Lemma listing_line_no_lf output line :
  In line (listing_lines output) -> ~ In 10 line.
Proof.
  intros Hl H10. pose proof (splitlines_no_break _ _ _ Hl H10). discriminate.
Qed.

Lemma In_shaped d a b c eol :
  In d (lit "v" ++ a ++ lit "." ++ b ++ lit "." ++ c ++ eol)
  <-> d = 118 \/ d = 46 \/ In d a \/ In d b \/ In d c \/ In d eol.
Proof.
  lit_compute.
  change (118 :: a ++ 46 :: b ++ 46 :: c ++ eol)
    with ([118] ++ a ++ [46] ++ b ++ [46] ++ c ++ eol).
  repeat rewrite in_app_iff. cbn [In]. intuition congruence.
Qed.

Lemma version_shaped_semver tag :
  Spec.version_shaped tag -> Spec.semver_shaped Unicode.is_ascii_digit tag.
Proof.
  intros (a & b & c & -> & [Da _] & [Db _] & [Dc _]). exists a, b, c. auto.
Qed.

(** On a tag without line feed the candidates are exactly the tags of
    the shape [v<number>.<number>.<number>], the numbers in ASCII digits
    and short enough for [int()]. *)
Lemma version_of_tag_shape tag :
  ~ In 10 tag ->
  (exists v, version_of_tag tag = Ok (Some v)) <-> Spec.version_shaped tag.
Proof.
  intros Hnl. split.
  - intros [v (a & b & c & eol & -> & Da & Db & Dc & Heol & _)%version_of_tag_some].
    destruct Heol as [->| ->].
    + exists a, b, c. rewrite app_nil_r. auto.
    + exfalso. apply Hnl, In_shaped. do 5 right. now left.
  - intros (a & b & c & -> & Da & Db & Dc). eexists.
    apply version_of_tag_some. exists a, b, c, []. rewrite app_nil_r.
    repeat split; try apply Da; try apply Db; try apply Dc. now left.
Qed.

(** A tag without line feed that has not the shape in ASCII digits is
    passed over, whatever the length of its numbers. *)
Lemma version_of_tag_not_shaped tag :
  ~ In 10 tag -> ~ Spec.semver_shaped Unicode.is_ascii_digit tag ->
  version_of_tag tag = Ok None.
Proof.
  intros Hnl Hno. destruct (Re.matches TAG_PATTERN tag) eqn:E.
  - apply matches_shaped in E as (a & b & c & eol & -> & Da & Db & Dc & Heol).
    rewrite version_of_tag_shaped by assumption.
    destruct (forallb _ _) eqn:F; [|reflexivity]. exfalso.
    destruct Heol as [->| ->].
    + apply Hno. exists a, b, c. rewrite app_nil_r.
      rewrite !forallb_app in F.
      apply andb_true_iff in F as [Fa [Fb Fc]%andb_true_iff].
      destruct Da, Db, Dc. unfold Spec.digits. auto 10.
    + apply Hnl, In_shaped. do 5 right. now left.
  - unfold version_of_tag. now rewrite E.
Qed.

End Refs.

(** ** The resolver *)

Lemma to_str_three_part m :
  Spec.three_part m ->
  Version.to_str m
  = int_str (Version.major m) ++ lit "." ++ int_str (Version.minor m)
    ++ lit "." ++ int_str (Version.micro m).
Proof.
  intros (x & y & z & H & _). unfold Version.to_str, Version.major,
    Version.minor, Version.micro. rewrite H. reflexivity.
Qed.

Lemma three_tags_scanned :
  scan_lines (listing_lines Examples.three_tags) []
  = Ok [Examples.v 1 2 3; Examples.v 1 10 0; Examples.v 2 0 0].
Proof. vm_compute. reflexivity. Qed.

Lemma three_tags_latest w repo :
  git_ls_remote_tags w repo = inr Examples.three_tags ->
  get_latest_tag w repo None = Ok (Some (lit "v2.0.0"))
  /\ get_latest_tag w repo (Some 1) = Ok (Some (lit "v1.10.0"))
  /\ get_latest_tag w repo (Some 5) = Ok (Some (lit "v2.0.0")).
Proof.
  intros Hls.
  now rewrite !(get_latest_tag_after_loop _ _ _ _ _ Hls three_tags_scanned).
Qed.

Lemma version_eta (m : Version.t) x y z :
  Version.release m = [x; y; z] -> m = Version.Make [x; y; z].
Proof. destruct m as [r]. cbn. now intros ->. Qed.

Lemma int_str_number x :
  0 <= x -> Z.of_nat (length (int_str x)) <= int_max_str_digits ->
  Spec.number (int_str x).
Proof. intros Hx Hl. split; [now apply int_str_digits|assumption]. Qed.

(** Rendering a version and reading the text again gives the version
    back. *)
Lemma version_of_rendered m :
  Spec.three_part m -> Spec.rendered_within_limit m ->
  version_of_tag (lit "v" ++ Version.to_str m) = Ok (Some m)
  /\ Spec.semver_shaped Unicode.is_ascii_digit (lit "v" ++ Version.to_str m).
Proof.
  intros H3 HL. rewrite (to_str_three_part m H3).
  destruct H3 as (x & y & z & Hr & Hx & Hy & Hz).
  unfold Spec.rendered_within_limit in HL. rewrite Hr in HL.
  apply Forall_cons_iff in HL as [Lx HL].
  apply Forall_cons_iff in HL as [Ly HL].
  apply Forall_cons_iff in HL as [Lz _].
  unfold Version.major, Version.minor, Version.micro. rewrite Hr. cbn [nth].
  split.
  - apply version_of_tag_some.
    exists (int_str x), (int_str y), (int_str z), [].
    rewrite app_nil_r, !digits_value_int_str by assumption.
    auto 10 using int_str_number, version_eta.
  - exists (int_str x), (int_str y), (int_str z).
    repeat split; apply int_str_digits; assumption.
Qed.

(** How a call ends, by what [git] answered and what the loop made of
    it. *)
Lemma get_latest_tag_cases w repo major :
  match git_ls_remote_tags w repo with
  | inl e => get_latest_tag w repo major = Raise (SubprocessError e)
  | inr output =>
      match scan_lines (listing_lines output) [] with
      | Ok tags =>
          get_latest_tag w repo major = latest_of tags major
          /\ Forall Spec.three_part tags
          /\ Forall Spec.rendered_within_limit tags
      | Raise _ => get_latest_tag w repo major = Raise ValueError
      end
  end.
Proof.
  destruct (git_ls_remote_tags w repo) as [e|output] eqn:Hls.
  - now apply transport_error_raised.
  - destruct (scan_lines (listing_lines output) []) as [tags|x] eqn:E.
    + split; [eapply get_latest_tag_after_loop; eassumption|].
      split; [now apply scan_lines_three_part in E
             |now apply scan_lines_rendered in E].
    + destruct (scan_lines_raise _ _ E) as [-> _].
      unfold get_latest_tag, check_output. rewrite Hls. cbn. now rewrite E.
Qed.


Lemma latest_of_some tags major tag :
  Forall Spec.three_part tags ->
  latest_of tags major = Ok (Some tag) ->
  exists m, In m tags /\ Spec.three_part m
            /\ tag = lit "v" ++ Version.to_str m.
Proof.
  intros H3 H. destruct tags as [|t tags]; [discriminate|].
  destruct (latest_of_spec (t :: tags) major) as (m & Hm & Hin & _);
    [discriminate|assumption|].
  rewrite Hm in H. injection H as <-. exists m.
  rewrite List.Forall_forall in H3. auto.
Qed.

Lemma get_latest_tag_some w repo major tag :
  get_latest_tag w repo major = Ok (Some tag) ->
  exists m, Spec.three_part m /\ Spec.rendered_within_limit m
            /\ tag = lit "v" ++ Version.to_str m.
Proof.
  intros H. pose proof (get_latest_tag_cases w repo major) as Hc.
  destruct (git_ls_remote_tags w repo) as [e|output]; [congruence|].
  destruct (scan_lines (listing_lines output) []) as [tags|x]; [|congruence].
  destruct Hc as (Hc & H3 & HL). rewrite Hc in H.
  destruct (latest_of_some _ _ _ H3 H) as (m & Hin & Hm & ->).
  rewrite List.Forall_forall in HL. eauto.
Qed.

Lemma version_of_tag_matches tag v :
  version_of_tag tag = Ok (Some v) -> Re.matches TAG_PATTERN tag = true.
Proof.
  unfold version_of_tag. destruct (Re.matches TAG_PATTERN tag); easy.
Qed.

(** What the loop of [main] records as a branch. *)
Lemma tag_or_main_shaped w repo major tag :
  get_latest_tag w repo major = Ok tag ->
  Spec.branch_shaped (tag_or_main tag) /\ tag_or_main tag <> [].
Proof.
  intros Htag. destruct tag as [t|]; [|split; [now left|discriminate]].
  destruct (get_latest_tag_some _ _ _ _ Htag) as (m & H3 & HL & ->).
  cbn -[lit]. lit_compute. split; [|discriminate].
  right. apply (version_of_rendered m H3 HL).
Qed.

(** Claim C1. Without a major filter [get_latest_tag] returns the greatest
    candidate for the numeric order on major, then minor, then patch, and
    renders it as [v<major>.<minor>.<patch>]. For the tags v1.2.3, v1.10.0
    and v2.0.0 it returns v2.0.0; v1.2.3 is below v1.10.0 in that order,
    although the string 1.10.0 is below the string 1.2.3. *)
Theorem latest_is_numeric_maximum :
  (forall w repo output tags,
      git_ls_remote_tags w repo = inr output ->
      scan_lines (listing_lines output) [] = Ok tags ->
      tags <> [] ->
      exists m,
        get_latest_tag w repo None
        = Ok (Some (lit "v" ++ int_str (Version.major m) ++ lit "."
                    ++ int_str (Version.minor m) ++ lit "."
                    ++ int_str (Version.micro m)))
        /\ In m tags
        /\ forall t, In t tags -> Spec.semver_le t m)
  /\ (forall w repo,
        git_ls_remote_tags w repo = inr Examples.three_tags ->
        get_latest_tag w repo None = Ok (Some (lit "v2.0.0")))
  /\ Spec.semver_lt (Examples.v 1 2 3) (Examples.v 1 10 0)
  /\ Spec.str_lt (lit "1.10.0") (lit "1.2.3") = true.
Proof.
  split; [|split; [|split]].
  - intros w repo output tags Hls Hscan Hne.
    rewrite (get_latest_tag_after_loop _ _ _ _ _ Hls Hscan).
    pose proof (scan_lines_three_part _ _ Hscan) as H3.
    destruct (latest_of_spec tags None Hne H3) as (m & Hm & Hin & Hsome & _).
    exists m. split; [|split].
    + rewrite Hm, to_str_three_part; [reflexivity|].
      rewrite List.Forall_forall in H3. auto.
    + assumption.
    + destruct Hsome as [_ Hmax]; [|auto].
      destruct tags as [|t0 tags]; [easy|]. exists t0. split; [now left|reflexivity].
  - intros w repo Hls. now apply three_tags_latest.
  - right. cbn. lia.
  - reflexivity.
Qed.

Lemma latest_is_numeric_maximum_witness :
  exists m,
    get_latest_tag (Examples.world None (fun _ => inr Examples.three_tags))
      (lit "https://github.com/frappe/erpnext") None
    = Ok (Some (lit "v" ++ int_str (Version.major m) ++ lit "."
                ++ int_str (Version.minor m) ++ lit "."
                ++ int_str (Version.micro m)))
    /\ In m [Examples.v 1 2 3; Examples.v 1 10 0; Examples.v 2 0 0]
    /\ forall t, In t [Examples.v 1 2 3; Examples.v 1 10 0; Examples.v 2 0 0] ->
                 Spec.semver_le t m.
Proof.
  apply (proj1 latest_is_numeric_maximum
           (Examples.world None (fun _ => inr Examples.three_tags))
           (lit "https://github.com/frappe/erpnext") Examples.three_tags).
  - reflexivity.
  - vm_compute. reflexivity.
  - discriminate.
Defined.

(** Claim C2. With a major filter [m] and at least one candidate,
    [get_latest_tag] returns the greatest of the candidates whose major
    number is [m] when there is one, and the greatest of all candidates
    when there is none. For the tags v1.2.3, v1.10.0 and v2.0.0 the filter
    1 gives v1.10.0 and the filter 5 gives v2.0.0. *)
Theorem major_filter_is_advisory :
  (forall w repo output tags m,
      git_ls_remote_tags w repo = inr output ->
      scan_lines (listing_lines output) [] = Ok tags ->
      tags <> [] ->
      exists best,
        get_latest_tag w repo (Some m)
        = Ok (Some (lit "v" ++ int_str (Version.major best) ++ lit "."
                    ++ int_str (Version.minor best) ++ lit "."
                    ++ int_str (Version.micro best)))
        /\ In best tags
        /\ ((exists t, In t tags /\ Version.major t = m) ->
            Version.major best = m
            /\ forall t, In t tags -> Version.major t = m ->
                         Spec.semver_le t best)
        /\ ((forall t, In t tags -> Version.major t <> m) ->
            forall t, In t tags -> Spec.semver_le t best))
  /\ (forall w repo,
        git_ls_remote_tags w repo = inr Examples.three_tags ->
        get_latest_tag w repo (Some 1) = Ok (Some (lit "v1.10.0"))
        /\ get_latest_tag w repo (Some 5) = Ok (Some (lit "v2.0.0"))).
Proof.
  split.
  - intros w repo output tags m Hls Hscan Hne.
    rewrite (get_latest_tag_after_loop _ _ _ _ _ Hls Hscan).
    pose proof (scan_lines_three_part _ _ Hscan) as H3.
    destruct (latest_of_spec tags (Some m) Hne H3)
      as (best & Hbest & Hin & Hsome & Hnone).
    exists best. split; [|split; [|split]].
    + rewrite Hbest, to_str_three_part; [reflexivity|].
      rewrite List.Forall_forall in H3. auto.
    + assumption.
    + intros (t & Ht & Hm). destruct Hsome as [Hb Hmax].
      { exists t. split; [assumption|]. cbn. now apply Z.eqb_eq. }
      split; [now apply Z.eqb_eq|].
      intros u Hu Hum. apply Hmax; [assumption|]. cbn. now apply Z.eqb_eq.
    + intros Hno. apply Hnone. intros t Ht. cbn.
      apply Z.eqb_neq. auto.
  - intros w repo Hls. now apply three_tags_latest.
Qed.

Lemma major_filter_is_advisory_witness :
  exists best,
    get_latest_tag (Examples.world None (fun _ => inr Examples.three_tags))
      (lit "https://github.com/frappe/hrms") (Some 1)
    = Ok (Some (lit "v" ++ int_str (Version.major best) ++ lit "."
                ++ int_str (Version.minor best) ++ lit "."
                ++ int_str (Version.micro best)))
    /\ In best [Examples.v 1 2 3; Examples.v 1 10 0; Examples.v 2 0 0]
    /\ Version.major best = 1
    /\ Spec.semver_le (Examples.v 1 2 3) best.
Proof.
  destruct (proj1 major_filter_is_advisory
              (Examples.world None (fun _ => inr Examples.three_tags))
              (lit "https://github.com/frappe/hrms") Examples.three_tags
              [Examples.v 1 2 3; Examples.v 1 10 0; Examples.v 2 0 0] 1)
    as (best & Hbest & Hin & Hsome & _).
  - reflexivity.
  - vm_compute. reflexivity.
  - discriminate.
  - exists best. destruct Hsome as [Hm Hmax].
    + exists (Examples.v 1 2 3). split; [now left|reflexivity].
    + repeat split; try assumption. apply Hmax; [now left|reflexivity].
Defined.

(** ** The run *)


Lemma run_env_raises w repos fs x :
  major_of_env (default [] (FRAPPE_VERSION w)) = Raise x ->
  run w repos fs = (Raise x, fs).
Proof. intros H. unfold run. now rewrite H. Qed.

Lemma run_raises w repos fs major x :
  major_of_env (default [] (FRAPPE_VERSION w)) = Ok major ->
  resolve_all w major repos [] = Raise x ->
  run w repos fs = (Raise x, fs).
Proof. intros Hm H. unfold run. now rewrite Hm, H. Qed.

Lemma run_reaches_the_write w repos fs major apps :
  major_of_env (default [] (FRAPPE_VERSION w)) = Ok major ->
  resolve_all w major repos [] = Ok apps ->
  run w repos fs
  = write_text w "apps.json" (Json.dumps (apps_value apps) ++ [10]) fs.
Proof. intros Hm H. unfold run. now rewrite Hm, H. Qed.

(** *** Opening and writing the file *)

Lemma open_for_writing_ok path fs :
  Spec.can_write path fs ->
  open_for_writing path fs = Ok (set_content path [] fs).
Proof.
  unfold Spec.can_write, open_for_writing.
  destruct (nodes fs !! path) as [[content writable|]|]; [| |];
    intros H; try rewrite H; easy.
Qed.


Lemma open_for_writing_inv path fs opened :
  open_for_writing path fs = Ok opened ->
  Spec.can_write path fs /\ opened = set_content path [] fs.
Proof.
  unfold Spec.can_write, open_for_writing.
  destruct (nodes fs !! path) as [[content [|]|]|]; try discriminate.
  - now intros [= <-].
  - destruct (may_create fs); [|discriminate]. now intros [= <-].
Qed.

Lemma set_content_twice path bytes bytes' fs :
  set_content path bytes (set_content path bytes' fs) = set_content path bytes fs.
Proof. unfold set_content. cbn. now rewrite insert_insert_eq. Qed.

Lemma file_bytes_set_content path bytes fs :
  Spec.file_bytes path (set_content path bytes fs) = Some bytes.
Proof. unfold Spec.file_bytes, set_content. cbn. now rewrite lookup_insert_eq. Qed.

Lemma nodes_set_content_ne path path' bytes fs :
  path' <> path ->
  nodes (set_content path bytes fs) !! path' = nodes fs !! path'.
Proof. intros H. unfold set_content. cbn. now apply lookup_insert_ne. Qed.

(** Seven-bit text is written as soon as the file opens. *)
Lemma write_text_seven_bit w path data fs :
  Forall Spec.seven_bit data -> Spec.can_write path fs ->
  write_text w path data fs = (Ok (), set_content path (map byte_of_Z data) fs).
Proof.
  intros Hdata Hfs. unfold write_text.
  rewrite (open_for_writing_ok path fs Hfs).
  rewrite (encode_str_seven_bit _ _ Hdata). now rewrite set_content_twice.
Qed.


Lemma write_text_ok_inv w path data fs :
  Forall Spec.seven_bit data ->
  (write_text w path data fs).1 = Ok () -> Spec.can_write path fs.
Proof.
  intros Hdata. unfold write_text.
  destruct (open_for_writing path fs) as [opened|e] eqn:E; [|discriminate].
  intros _. now apply open_for_writing_inv in E.
Qed.

(** *** The characters of the entries *)

Lemma repos_plain : Forall (fun repo => forallb Spec.plain repo = true) REPOS.
Proof. repeat constructor. Qed.

Lemma ascii_digits_plain s :
  forallb Unicode.is_ascii_digit s = true -> forallb Spec.plain s = true.
Proof.
  apply forallb_weaken. intros c. unfold Unicode.is_ascii_digit, Spec.plain.
  intros H. rewrite !andb_true_iff, !negb_true_iff. lia.
Qed.

Lemma branch_shaped_plain b :
  Spec.branch_shaped b -> forallb Spec.plain b = true.
Proof.
  intros [->|(a & b' & c & -> & [_ Fa] & [_ Fb] & [_ Fc])]; [reflexivity|].
  lit_compute.
  change (118 :: a ++ 46 :: b' ++ 46 :: c)
    with ([118] ++ a ++ [46] ++ b' ++ [46] ++ c).
  rewrite !forallb_app.
  rewrite (ascii_digits_plain a Fa), (ascii_digits_plain b' Fb),
    (ascii_digits_plain c Fc). reflexivity.
Qed.

(** The entries of a run hold plain characters only: the configured
    identifiers, and branches that are [main] or a rendered version. *)
Lemma resolve_all_plain w major repos apps :
  Forall (fun repo => forallb Spec.plain repo = true) repos ->
  resolve_all w major repos [] = Ok apps ->
  Forall (fun e => forallb Spec.plain (git_url e) = true
                   /\ forallb Spec.plain (branch e) = true) apps.
Proof.
  intros Hrepos H%resolve_all_ok.
  induction H as [|repo e repos apps (Hu & tag & Htag & Hb) _ IH];
    constructor.
  - apply Forall_cons_iff in Hrepos as [Hr _]. rewrite Hu, Hb. split; [assumption|].
    apply branch_shaped_plain. eapply tag_or_main_shaped, Htag.
  - apply IH. now apply Forall_cons_iff in Hrepos as [_ Hrepos].
Qed.

Lemma manifest_text_ends_with_line_feed apps :
  exists body, Spec.manifest_text apps = body ++ [10].
Proof.
  unfold Spec.manifest_text. destruct apps as [|e apps].
  - now exists (lit "[]").
  - eexists. rewrite !app_assoc. reflexivity.
Qed.

(** Claim C3. When [git ls-remote] fails for a configured repository, the
    run ends with an uncaught exception, hence a non-zero exit status, and
    the file system is left as it was: the manifest is written only after
    every repository has been resolved. Once the major filter has been
    read from the environment, the exception is the transport error
    itself when the run reaches that repository, which it does when every
    repository before it resolves. *)
Theorem transport_error_aborts_the_run (w : World) (fs : FileSystem) :
  (forall repo e,
      In repo REPOS -> git_ls_remote_tags w repo = inl e ->
      exists x, main w fs = (Raise x, fs) /\ exit_status (main w fs).1 <> 0)
  /\ (forall major pre repo post e,
        major_of_env (default [] (FRAPPE_VERSION w)) = Ok major ->
        REPOS = pre ++ repo :: post ->
        (forall r, In r pre ->
           exists tag, get_latest_tag w r major = Ok tag) ->
        git_ls_remote_tags w repo = inl e ->
        main w fs = (Raise (SubprocessError e), fs))
  /\ (forall major repo x,
        major_of_env (default [] (FRAPPE_VERSION w)) = Ok major ->
        In repo REPOS ->
        get_latest_tag w repo major = Raise x ->
        (main w fs).2 = fs).
Proof.
  split; [|split].
  - intros repo e Hin Hls. unfold main.
    destruct (major_of_env (default [] (FRAPPE_VERSION w))) as [major|y] eqn:Hm.
    + destruct (resolve_all_failure w major REPOS repo _ Hin
                  (transport_error_raised w major repo e Hls)) as [x Hx].
      exists x. rewrite (run_raises _ _ _ _ _ Hm Hx).
      split; [reflexivity|]. cbn. lia.
    + exists y. rewrite (run_env_raises _ _ _ _ Hm).
      split; [reflexivity|]. cbn. lia.
  - intros major pre repo post e Hm Hsplit Hpre Hls. unfold main.
    apply (run_raises _ _ _ _ _ Hm).
    rewrite Hsplit. apply resolve_all_first_failure; [assumption|].
    now apply transport_error_raised.
  - intros major repo x Hm Hin Hx.
    destruct (resolve_all_failure w _ REPOS repo _ Hin Hx) as [x' Hx'].
    unfold main. now rewrite (run_raises _ _ _ _ _ Hm Hx').
Qed.



Example empty_listing_gives_main :
  resolve_all (Examples.world None (fun _ => inr [])) None
    [lit "https://github.com/frappe/lms"] []
  = Ok [{| git_url := lit "https://github.com/frappe/lms";
           branch := lit "main" |}].
Proof. reflexivity. Qed.

(** Claim C6. The list that [main] builds has one entry for each
    configured repository, in the order of the configuration, and the
    [git_url] of an entry is the repository it stands for; the list exists
    as soon as every repository resolves. *)
Theorem manifest_follows_configuration w major repos :
  (forall apps,
      resolve_all w major repos [] = Ok apps ->
      map git_url apps = repos
      /\ length apps = length repos
      /\ Forall2 (Spec.resolved w major) repos apps)
  /\ ((forall repo, In repo repos ->
         exists tag, get_latest_tag w repo major = Ok tag) ->
      exists apps, resolve_all w major repos [] = Ok apps).
Proof.
  split; [|apply resolve_all_total].
  intros apps H%resolve_all_ok.
  split; [|split; [|assumption]].
  - induction H as [|repo e repos apps [He _] _ IH]; [reflexivity|].
    cbn. now rewrite He, IH.
  - induction H as [|repo e repos apps _ _ IH]; [reflexivity|].
    cbn. now rewrite IH.
Qed.

Lemma manifest_follows_configuration_witness :
  exists apps,
    resolve_all (Examples.world None (fun _ => inr Examples.three_tags)) None
      REPOS [] = Ok apps
    /\ map git_url apps = REPOS.
Proof.
  destruct (manifest_follows_configuration
              (Examples.world None (fun _ => inr Examples.three_tags)) None REPOS)
    as [Hshape Hexists].
  destruct Hexists as [apps Happs].
  - intros repo _. exists (Some (lit "v2.0.0")).
    now apply three_tags_latest.
  - exists apps. split; [assumption|]. now apply Hshape.
Defined.

Lemma transport_error_aborts_the_run_witness :
  main Examples.crm_down Examples.empty_directory
  = (Raise (SubprocessError (CalledProcessError 128)), Examples.empty_directory).
Proof.
  apply (proj1 (proj2 (transport_error_aborts_the_run
                         Examples.crm_down Examples.empty_directory))
           (Some 15)
           [lit "https://github.com/frappe/erpnext";
            lit "https://github.com/frappe/hrms"]
           (lit "https://github.com/frappe/crm")
           [lit "https://github.com/frappe/helpdesk";
            lit "https://github.com/frappe/drive";
            lit "https://github.com/frappe/insights";
            lit "https://github.com/frappe/builder";
            lit "https://github.com/frappe/lms"]
           (CalledProcessError 128)).
  - vm_compute. reflexivity.
  - reflexivity.
  - intros r [<-|[<-|[]]]; eexists; vm_compute; reflexivity.
  - reflexivity.
Defined.

(** Claim C8. A run succeeds when the major filter is read, every
    configured repository resolves and [apps.json] can be opened for
    writing. After a successful run [apps.json] holds, whatever it held
    before, the UTF-8 encoding of the manifest: a JSON array with one
    object for each repository, each object with the two string members
    [git_url] and [branch], indented by two spaces, and a line feed at
    the end. No other path is touched. *)
Theorem manifest_file_is_written (w : World) (fs : FileSystem) :
  (forall major,
      major_of_env (default [] (FRAPPE_VERSION w)) = Ok major ->
      (forall repo, In repo REPOS ->
         exists tag, get_latest_tag w repo major = Ok tag) ->
      Spec.can_write "apps.json" fs ->
      (main w fs).1 = Ok ())
  /\ ((main w fs).1 = Ok () ->
      exists major apps bytes,
        major_of_env (default [] (FRAPPE_VERSION w)) = Ok major
        /\ Forall2 (Spec.resolved w major) REPOS apps
        /\ Spec.file_bytes "apps.json" (main w fs).2 = Some bytes
        /\ Spec.utf8_decode bytes = Some (Spec.manifest_text apps)
        /\ (exists body, Spec.manifest_text apps = body ++ [10])
        /\ forall path, path <> "apps.json"%string ->
             nodes (main w fs).2 !! path = nodes fs !! path).
Proof.
  unfold main. split.
  - intros major Hm Hall Hfs.
    destruct (resolve_all_total w major REPOS Hall) as [apps Happs].
    rewrite (run_reaches_the_write _ _ _ _ _ Hm Happs).
    now rewrite write_text_seven_bit by (apply dumps_seven_bit || assumption).
  - destruct (major_of_env (default [] (FRAPPE_VERSION w))) as [major|y] eqn:Hm;
      [|now rewrite (run_env_raises _ _ _ _ Hm)].
    destruct (resolve_all w major REPOS []) as [apps|y] eqn:Happs;
      [|now rewrite (run_raises _ _ _ _ _ Hm Happs)].
    rewrite (run_reaches_the_write _ _ _ _ _ Hm Happs).
    intros Hfs%write_text_ok_inv; [|apply dumps_seven_bit].
    rewrite write_text_seven_bit by (apply dumps_seven_bit || assumption).
    cbn [fst snd].
    exists major, apps, (map byte_of_Z (Json.dumps (apps_value apps) ++ [10])).
    split; [reflexivity|]. split; [now apply resolve_all_ok|].
    split; [apply file_bytes_set_content|].
    split; [|split].
    + rewrite utf8_decode_seven_bit by apply dumps_seven_bit.
      f_equal. apply dumps_manifest.
      exact (resolve_all_plain _ _ _ _ repos_plain Happs).
    + apply manifest_text_ends_with_line_feed.
    + intros path Hpath. now apply nodes_set_content_ne.
Qed.

Lemma manifest_file_is_written_witness :
  exists apps bytes,
    Spec.file_bytes "apps.json"
      (main (Examples.all_up None ISO_8859_1) Examples.stale_manifest).2
    = Some bytes
    /\ Spec.utf8_decode bytes = Some (Spec.manifest_text apps)
    /\ length apps = 8%nat.
Proof.
  pose proof (manifest_file_is_written
                (Examples.all_up None ISO_8859_1) Examples.stale_manifest)
    as [Hruns Hwritten].
  destruct Hwritten as (major & apps & bytes & Hm & Happs & Hfile & Htext & _).
  - apply (Hruns None).
    + reflexivity.
    + intros repo _. exists (Some (lit "v2.0.0")). now apply three_tags_latest.
    + reflexivity.
  - exists apps, bytes. split; [assumption|]. split; [assumption|].
    apply Forall2_length in Happs. now rewrite <- Happs.
Defined.

(** ** Peeled tags *)

(** Claim C7. The [^{}] that closes the ref of a dereferenced tag is
    removed before the pattern is tried and the version parsed, so that
    [refs/tags/<name>^{}] is treated as [refs/tags/<name>] is: both give
    the same tag and the same candidate, for every name that is not itself
    closed by [^{}] (no tag name holds a caret). In particular
    [refs/tags/v1.2.3^{}] and [refs/tags/v1.2.3] both give the candidate
    1.2.3. *)
Theorem peeled_ref_is_treated_as_plain_ref :
  (forall ref,
      tag_of_ref (ref ++ lit "^{}") = PyStr.replace (lit "refs/tags/") [] ref)
  /\ (forall name,
        ~ In 94 name ->
        tag_of_ref (lit "refs/tags/" ++ name ++ lit "^{}")
        = tag_of_ref (lit "refs/tags/" ++ name)
        /\ forall line line' oid oid',
             PyStr.split 9 line = [oid; lit "refs/tags/" ++ name ++ lit "^{}"] ->
             PyStr.split 9 line' = [oid'; lit "refs/tags/" ++ name] ->
             scan_line line = scan_line line')
  /\ version_of_tag (tag_of_ref (lit "refs/tags/v1.2.3^{}"))
     = Ok (Some (Examples.v 1 2 3))
  /\ version_of_tag (tag_of_ref (lit "refs/tags/v1.2.3"))
     = Ok (Some (Examples.v 1 2 3)).
Proof.
  split; [exact tag_of_ref_peeled|]. split; [|split; vm_compute; reflexivity].
  intros name Hname.
  assert (Htag : tag_of_ref (lit "refs/tags/" ++ name ++ lit "^{}")
                 = tag_of_ref (lit "refs/tags/" ++ name)).
  { rewrite app_assoc, tag_of_ref_peeled. symmetry. apply tag_of_ref_plain.
    destruct (PyStr.endswith _ _) eqn:E; [|reflexivity].
    exfalso. apply Hname. apply endswith_peel_caret in E.
    apply replace_from_delete_In in E.
    apply in_app_or in E as [E|E]; [|assumption].
    revert E. lit_compute. cbn. lia. }
  split; [assumption|]. intros line line' oid oid' Hl Hl'.
  unfold scan_line. rewrite Hl, Hl'. cbn [mbind result_bind unpack_second].
  now rewrite Htag.
Qed.

Lemma peeled_ref_is_treated_as_plain_ref_witness :
  tag_of_ref (lit "refs/tags/" ++ lit "v15.0.0" ++ lit "^{}")
  = tag_of_ref (lit "refs/tags/" ++ lit "v15.0.0").
Proof.
  apply (proj1 (proj2 peeled_ref_is_treated_as_plain_ref) (lit "v15.0.0")).
  lit_compute. cbn. lia.
Defined.

(** ** Which refs become candidates *)

Lemma tag_name_prefixed name :
  Spec.tag_name (lit "refs/tags/" ++ name) = Spec.unpeeled name.
Proof. reflexivity. Qed.

Lemma long_tag_shaped :
  Spec.semver_shaped Unicode.is_ascii_digit Examples.long_tag.
Proof.
  exists Examples.long_number, [48], [48].
  split; [reflexivity|]. repeat split; try discriminate; vm_compute; reflexivity.
Qed.

(** Claim C4 as stated fails in both directions. The tag written with the
    Arabic-Indic digits one, two and three has the shape that the pattern
    asks for, and is no candidate, because [Version] refuses it. The tag
    named [vrefs/tags/1.2.3] has not that shape once the prefix of its ref
    is removed, and is a candidate, because [replace] removes the second
    [refs/tags/] as well. And a tag whose major number has 4301 digits has
    the shape, in ASCII digits, and is no candidate either: [int()] raises
    [ValueError] on the number. *)
Lemma candidate_iff_pattern_counterexample :
  (Spec.semver_shaped Unicode.isdecimal
     (Spec.tag_name (lit "refs/tags/" ++ Examples.arabic_indic_tag))
   /\ version_of_tag (tag_of_ref (lit "refs/tags/" ++ Examples.arabic_indic_tag))
      = Ok None)
  /\ (~ Spec.semver_shaped Unicode.isdecimal
          (Spec.tag_name (lit "refs/tags/vrefs/tags/1.2.3"))
      /\ version_of_tag (tag_of_ref (lit "refs/tags/vrefs/tags/1.2.3"))
         = Ok (Some (Examples.v 1 2 3)))
  /\ (Spec.semver_shaped Unicode.is_ascii_digit
        (Spec.tag_name (lit "refs/tags/" ++ Examples.long_tag))
      /\ version_of_tag (tag_of_ref (lit "refs/tags/" ++ Examples.long_tag))
         = Raise ValueError).
Proof.
  split; [|split]; split.
  - exists [1633], [1634], [1635]. repeat split; discriminate || reflexivity.
  - vm_compute. reflexivity.
  - intros (a & b & c & H & [Ha Fa] & _).
    destruct a as [|a0 a]; [easy|].
    vm_compute in H. injection H as <- _.
    cbn in Fa. discriminate.
  - vm_compute. reflexivity.
  - replace (Spec.tag_name (lit "refs/tags/" ++ Examples.long_tag))
      with Examples.long_tag by (vm_compute; reflexivity).
    exact long_tag_shaped.
  - vm_compute. reflexivity.
Qed.

(** Claim C4, amended. Take a line of a listing whose ref is
    [refs/tags/<name>], where [refs/tags/] does not occur in [<name>].
    The line gives a candidate if and only if [<name>], without one final
    [^{}], is exactly [v<digits>.<digits>.<digits>] in the ASCII digits 0
    to 9, each of the three numbers of at most 4300 digits; every name
    that has not that shape in ASCII digits gives none. *)
Theorem candidate_iff_ascii_semver output line oid name :
  In line (listing_lines output) ->
  PyStr.split 9 line = [oid; lit "refs/tags/" ++ name] ->
  PyStr.contains name (lit "refs/tags/") = false ->
  tag_of_ref (lit "refs/tags/" ++ name)
  = Spec.tag_name (lit "refs/tags/" ++ name)
  /\ ((exists v, scan_line line = Ok (Some v))
      <-> Spec.version_shaped (Spec.tag_name (lit "refs/tags/" ++ name)))
  /\ (~ Spec.semver_shaped Unicode.is_ascii_digit
          (Spec.tag_name (lit "refs/tags/" ++ name)) ->
      scan_line line = Ok None).
Proof.
  intros Hline Hsplit Hname.
  rewrite tag_name_prefixed.
  pose proof (tag_of_ref_prefixed name Hname) as Htag.
  assert (Hscan : scan_line line = version_of_tag (Spec.unpeeled name)).
  { unfold scan_line. rewrite Hsplit. cbn [mbind result_bind unpack_second].
    now rewrite Htag. }
  assert (Hnl : ~ In 10 (Spec.unpeeled name)).
  { intros H%In_unpeeled. apply (listing_line_no_lf output line Hline).
    apply (split_In 9 line (lit "refs/tags/" ++ name)).
    - rewrite Hsplit. right. now left.
    - apply in_or_app. now right. }
  rewrite Hscan. split; [assumption|].
  split; [now apply version_of_tag_shape|].
  now apply version_of_tag_not_shaped.
Qed.

Lemma candidate_iff_ascii_semver_witness :
  (exists v, scan_line (Examples.oid2 ++ [9] ++ lit "refs/tags/v1.10.0") = Ok (Some v))
  <-> Spec.version_shaped (Spec.tag_name (lit "refs/tags/" ++ lit "v1.10.0")).
Proof.
  apply (candidate_iff_ascii_semver Examples.three_tags
           (Examples.oid2 ++ [9] ++ lit "refs/tags/v1.10.0")
           Examples.oid2 (lit "v1.10.0")).
  - vm_compute. right. left. reflexivity.
  - vm_compute. reflexivity.
  - vm_compute. reflexivity.
Defined.

(** ** Tags that the pattern accepts and [Version] refuses *)

Lemma run_within_limit s pre run post :
  Spec.digit_runs_within_limit s -> s = pre ++ run ++ post ->
  Spec.digits Unicode.isdecimal run ->
  Z.of_nat (length run) <= int_max_str_digits.
Proof. intros H Hs [_ Hrun]. exact (H pre run post Hs Hrun). Qed.

Lemma short_text_within_limit s :
  Z.of_nat (length s) <= int_max_str_digits -> Spec.digit_runs_within_limit s.
Proof.
  intros Hs pre run post -> _. rewrite !length_app in Hs. lia.
Qed.

(** Claim C9 as stated fails: the pattern accepts the tag written with the
    Arabic-Indic digits one, two and three, [Version] raises
    [InvalidVersion] on it, and the handler drops the tag. The pattern
    also accepts a tag whose major number has 4301 digits, on which
    [Version] raises the [ValueError] of [int()]. *)
Lemma accepted_tag_always_parses_counterexample :
  (Re.matches TAG_PATTERN Examples.arabic_indic_tag = true
   /\ Version.parse (PyStr.lstrip (lit "v") Examples.arabic_indic_tag)
      = Raise InvalidVersion
   /\ version_of_tag Examples.arabic_indic_tag = Ok None)
  /\ (Re.matches TAG_PATTERN Examples.long_tag = true
      /\ Version.parse (PyStr.lstrip (lit "v") Examples.long_tag)
         = Raise ValueError
      /\ version_of_tag Examples.long_tag = Raise ValueError).
Proof. vm_compute. auto 10. Qed.

(** Claim C9, amended. A tag that the pattern accepts parses, and becomes
    a candidate, when each of its decimal digits is an ASCII digit and
    none of its runs of digits is longer than 4300; when one of its
    decimal digits is no ASCII digit, [Version] raises [InvalidVersion]
    and the handler drops the tag. *)
Theorem accepted_ascii_tag_always_parses tag :
  Re.matches TAG_PATTERN tag = true ->
  ((forall c, In c tag -> Unicode.isdecimal c = true ->
              Unicode.is_ascii_digit c = true) ->
   Spec.digit_runs_within_limit tag ->
   exists v, Version.parse (PyStr.lstrip (lit "v") tag) = Ok v
             /\ Spec.three_part v
             /\ version_of_tag tag = Ok (Some v))
  /\ ((exists c, In c tag /\ Unicode.isdecimal c = true
                 /\ Unicode.is_ascii_digit c = false) ->
      Version.parse (PyStr.lstrip (lit "v") tag) = Raise InvalidVersion
      /\ version_of_tag tag = Ok None).
Proof.
  intros Hm.
  destruct (matches_shaped tag Hm) as (a & b & c & eol & -> & Da & Db & Dc & Heol).
  rewrite version_of_tag_shaped, lstrip_v, parse_dotted by assumption.
  split.
  - intros Hascii Hruns.
    assert (F : forallb Unicode.is_ascii_digit (a ++ b ++ c) = true).
    { apply forallb_forall. intros d Hd. apply Hascii.
      - apply In_shaped. rewrite !in_app_iff in Hd. tauto.
      - destruct Da as [_ Fa], Db as [_ Fb], Dc as [_ Fc].
        rewrite forallb_forall in Fa, Fb, Fc.
        rewrite !in_app_iff in Hd. destruct Hd as [Hd|[Hd|Hd]]; auto. }
    assert (La : Z.of_nat (length a) <= int_max_str_digits).
    { apply (run_within_limit _ (lit "v") a
               (lit "." ++ b ++ lit "." ++ c ++ eol) Hruns);
        [reflexivity|assumption]. }
    assert (Lb : Z.of_nat (length b) <= int_max_str_digits).
    { apply (run_within_limit _ (lit "v" ++ a ++ lit ".") b
               (lit "." ++ c ++ eol) Hruns);
        [now rewrite <- !app_assoc|assumption]. }
    assert (Lc : Z.of_nat (length c) <= int_max_str_digits).
    { apply (run_within_limit _ (lit "v" ++ a ++ lit "." ++ b ++ lit ".") c
               eol Hruns);
        [now rewrite <- !app_assoc|assumption]. }
    rewrite F, ints_three, within_limit_true by assumption.
    eexists. split; [reflexivity|]. split; [|reflexivity].
    exists (digits_value a), (digits_value b), (digits_value c).
    auto using digits_value_nonneg.
  - intros (d & Hd & Hdec & Hnot).
    assert (F : forallb Unicode.is_ascii_digit (a ++ b ++ c) = false).
    { apply not_true_is_false. intros F. rewrite forallb_forall in F.
      rewrite F in Hnot; [discriminate|].
      apply In_shaped in Hd. rewrite !in_app_iff.
      destruct Hd as [->|[->|[Hd|[Hd|[Hd|Hd]]]]]; auto; try discriminate.
      destruct Heol as [->| ->]; [destruct Hd|].
      destruct Hd as [<-|[]]. discriminate. }
    now rewrite F.
Qed.

Lemma accepted_ascii_tag_always_parses_witness :
  exists v, Version.parse (PyStr.lstrip (lit "v") (lit "v15.68.2")) = Ok v
            /\ Spec.three_part v
            /\ version_of_tag (lit "v15.68.2") = Ok (Some v).
Proof.
  apply (proj1 (accepted_ascii_tag_always_parses (lit "v15.68.2") eq_refl)).
  - intros c Hc Hdec. vm_compute in Hc.
    decompose [or] Hc; subst; try contradiction; try reflexivity; discriminate Hdec.
  - apply short_text_within_limit. vm_compute. discriminate.
Defined.

(** ** Lines that are no records *)

(** Claim C10 as stated fails: white space at either end of the output is
    removed before the output is cut in lines. An output that is one space
    has one line, not empty and without tab, and the resolver returns
    [None]; an output whose only record is indented by two tabs has one
    line with three tabs, and the resolver returns [None] as well. *)
Lemma line_without_one_tab_raises_counterexample :
  (PyStr.splitlines Examples.blank_listing = [Examples.blank_listing]
   /\ PyStr.count 9 Examples.blank_listing = 0%nat
   /\ get_latest_tag (Examples.world None (fun _ => inr Examples.blank_listing))
        (lit "https://github.com/frappe/erpnext") None = Ok None)
  /\ (PyStr.splitlines Examples.indented_listing = [Examples.indented_listing]
      /\ PyStr.count 9 Examples.indented_listing = 3%nat
      /\ get_latest_tag
           (Examples.world None (fun _ => inr Examples.indented_listing))
           (lit "https://github.com/frappe/erpnext") None = Ok None).
Proof. vm_compute. auto 10. Qed.

Lemma scan_lines_raised w repo major output :
  git_ls_remote_tags w repo = inr output ->
  scan_lines (listing_lines output) [] = Raise ValueError ->
  get_latest_tag w repo major = Raise ValueError.
Proof.
  intros Hls E. unfold get_latest_tag, check_output. rewrite Hls. cbn.
  now rewrite E.
Qed.

(** Claim C10, amended. Once white space is removed at both ends of the
    output, every line that [splitlines] gives, the empty ones between two
    records included, must hold exactly one tab: when one of these lines
    holds none or more than one, [get_latest_tag] raises [ValueError]. *)
Theorem stripped_line_without_one_tab_raises w repo major output :
  git_ls_remote_tags w repo = inr output ->
  (exists line, In line (listing_lines output)
                /\ PyStr.count 9 line <> 1%nat) ->
  get_latest_tag w repo major = Raise ValueError.
Proof.
  intros Hls (line & Hline & Hcount).
  apply (scan_lines_raised _ _ _ _ Hls).
  apply (scan_lines_bad_line _ line Hline).
  destruct (scan_line_cases line) as [[_ H]|[H _]]; [assumption|contradiction].
Qed.

Lemma stripped_line_without_one_tab_raises_witness :
  get_latest_tag (Examples.world None (fun _ => inr Examples.broken_listing))
    (lit "https://github.com/frappe/erpnext") None = Raise ValueError.
Proof.
  apply (stripped_line_without_one_tab_raises
           (Examples.world None (fun _ => inr Examples.broken_listing))
           (lit "https://github.com/frappe/erpnext") None
           Examples.broken_listing eq_refl).
  exists (lit "fatal: unable to access"). split.
  - vm_compute. right. left. reflexivity.
  - vm_compute. discriminate.
Defined.

(** * Further properties *)


(** ** What the resolver returns *)

(** Property X1. The tag that [get_latest_tag] returns is built from the
    version, not copied from the listing; it is nevertheless a tag that the
    pattern accepts and that parses to the version it was built from. *)
Theorem returned_tag_reads_back w repo major tag :
  get_latest_tag w repo major = Ok (Some tag) ->
  exists m,
    tag = lit "v" ++ Version.to_str m
    /\ version_of_tag tag = Ok (Some m)
    /\ Re.matches TAG_PATTERN tag = true
    /\ Spec.semver_shaped Unicode.is_ascii_digit tag.
Proof.
  intros (m & H3 & HL & ->)%get_latest_tag_some.
  destruct (version_of_rendered m H3 HL) as [Hv Hs].
  exists m. split; [reflexivity|]. split; [assumption|].
  split; [eapply version_of_tag_matches; eassumption|assumption].
Qed.

Lemma returned_tag_reads_back_witness :
  exists m,
    lit "v2.0.0" = lit "v" ++ Version.to_str m
    /\ version_of_tag (lit "v2.0.0") = Ok (Some m)
    /\ Re.matches TAG_PATTERN (lit "v2.0.0") = true
    /\ Spec.semver_shaped Unicode.is_ascii_digit (lit "v2.0.0").
Proof.
  apply (returned_tag_reads_back
           (Examples.all_up None UTF_8) (lit "https://github.com/frappe/crm") None).
  vm_compute. reflexivity.
Defined.

Lemma latest_of_single v major :
  latest_of [v] major = Ok (Some (lit "v" ++ Version.to_str v)).
Proof.
  unfold latest_of.
  replace (match List.filter _ _ with [] => _ | _ => _ end) with [v]
    by (cbn; now destruct (major_matches major v)).
  reflexivity.
Qed.

(** Property X2. A tag whose three numbers are written without superfluous
    zeros, none of them longer than [int()] reads, is returned as it is
    listed, when it is the latest. *)
Theorem canonical_tag_is_returned_as_listed a b c :
  Spec.canonical_number a -> Spec.canonical_number b ->
  Spec.canonical_number c ->
  Z.of_nat (length a) <= int_max_str_digits ->
  Z.of_nat (length b) <= int_max_str_digits ->
  Z.of_nat (length c) <= int_max_str_digits ->
  exists v,
    version_of_tag (lit "v" ++ a ++ lit "." ++ b ++ lit "." ++ c) = Ok (Some v)
    /\ forall major,
         latest_of [v] major
         = Ok (Some (lit "v" ++ a ++ lit "." ++ b ++ lit "." ++ c)).
Proof.
  intros Ca Cb Cc La Lb Lc.
  exists (Version.Make [digits_value a; digits_value b; digits_value c]).
  split.
  - apply version_of_tag_some. exists a, b, c, [].
    rewrite app_nil_r. destruct Ca as [Da _], Cb as [Db _], Cc as [Dc _].
    unfold Spec.number. auto 15.
  - intros major. rewrite latest_of_single.
    unfold Version.to_str. cbn [Version.release map PyStr.join].
    now rewrite !int_str_digits_value.
Qed.

Lemma canonical_tag_is_returned_as_listed_witness :
  exists v,
    version_of_tag (lit "v" ++ lit "15" ++ lit "." ++ lit "0" ++ lit "." ++ lit "7")
    = Ok (Some v)
    /\ forall major,
         latest_of [v] major
         = Ok (Some (lit "v" ++ lit "15" ++ lit "." ++ lit "0" ++ lit "." ++ lit "7")).
Proof.
  apply (canonical_tag_is_returned_as_listed (lit "15") (lit "0") (lit "7"));
    try (vm_compute; discriminate);
    (split; [split; [discriminate|reflexivity]|]);
    [right; vm_compute; discriminate|now left|right; vm_compute; discriminate].
Defined.

Lemma digits_value_leading_zero s : digits_value (48 :: s) = digits_value s.
Proof. reflexivity. Qed.

Lemma number_tail c s :
  Spec.digits Unicode.is_ascii_digit s -> Spec.number (c :: s) -> Spec.number s.
Proof.
  intros Ds [_ L]. split; [assumption|]. cbn [length] in L. lia.
Qed.

(** Property X3. Zeros in front of a number do not count: when the numbers
    with their zero are short enough for [int()], the tag with the zeros
    and the tag without them are one candidate, and it is rendered without
    them. *)
Theorem leading_zeros_are_dropped a b c :
  Spec.digits Unicode.is_ascii_digit a -> Spec.digits Unicode.is_ascii_digit b ->
  Spec.digits Unicode.is_ascii_digit c ->
  Spec.number (48 :: a) -> Spec.number (48 :: b) -> Spec.number (48 :: c) ->
  exists v,
    version_of_tag (lit "v" ++ (48 :: a) ++ lit "." ++ (48 :: b) ++ lit "."
                    ++ (48 :: c)) = Ok (Some v)
    /\ version_of_tag (lit "v" ++ a ++ lit "." ++ b ++ lit "." ++ c) = Ok (Some v)
    /\ forall major,
         latest_of [v] major
         = Ok (Some (lit "v" ++ int_str (digits_value a) ++ lit "."
                     ++ int_str (digits_value b) ++ lit "."
                     ++ int_str (digits_value c))).
Proof.
  intros Da Db Dc Na Nb Nc.
  exists (Version.Make [digits_value a; digits_value b; digits_value c]).
  split; [|split].
  - apply version_of_tag_some. exists (48 :: a), (48 :: b), (48 :: c), [].
    rewrite app_nil_r, !digits_value_leading_zero. auto 10.
  - apply version_of_tag_some. exists a, b, c, []. rewrite app_nil_r.
    eauto 10 using number_tail.
  - intros major. now rewrite latest_of_single.
Qed.

Lemma leading_zeros_are_dropped_witness :
  exists v,
    version_of_tag (lit "v" ++ (48 :: lit "1") ++ lit "." ++ (48 :: lit "20")
                    ++ lit "." ++ (48 :: lit "0")) = Ok (Some v)
    /\ version_of_tag (lit "v" ++ lit "1" ++ lit "." ++ lit "20" ++ lit "."
                       ++ lit "0") = Ok (Some v)
    /\ forall major,
         latest_of [v] major
         = Ok (Some (lit "v" ++ int_str (digits_value (lit "1")) ++ lit "."
                     ++ int_str (digits_value (lit "20")) ++ lit "."
                     ++ int_str (digits_value (lit "0")))).
Proof.
  apply (leading_zeros_are_dropped (lit "1") (lit "20") (lit "0"));
    try (split; [discriminate|reflexivity]);
    (split; [split; [discriminate|reflexivity]|vm_compute; discriminate]).
Defined.

(** A record whose tag has the shape, in ASCII digits, with a number
    longer than [int()] reads: the call raises [ValueError]. *)
Lemma version_of_tag_over_long a b c :
  Spec.digits Unicode.is_ascii_digit a -> Spec.digits Unicode.is_ascii_digit b ->
  Spec.digits Unicode.is_ascii_digit c ->
  int_max_str_digits < Z.of_nat (length a)
  \/ int_max_str_digits < Z.of_nat (length b)
  \/ int_max_str_digits < Z.of_nat (length c) ->
  version_of_tag (lit "v" ++ a ++ lit "." ++ b ++ lit "." ++ c)
  = Raise ValueError.
Proof.
  intros Da Db Dc Hlong.
  rewrite <- (app_nil_r c).
  rewrite version_of_tag_shaped by (auto using ascii_digits_decimal).
  destruct Da as [_ Fa], Db as [_ Fb], Dc as [_ Fc].
  rewrite !forallb_app, Fa, Fb, Fc. cbn [andb].
  destruct (_ && _) eqn:L; [|reflexivity].
  apply within_limit_inv in L. lia.
Qed.

(** Property X14. A listing that holds a tag of the shape
    [v<digits>.<digits>.<digits>], in ASCII digits, with a number of more
    than 4300 digits is not resolved at all: [int()] raises [ValueError]
    on the number, the handler for [InvalidVersion] does not catch it, and
    it leaves [get_latest_tag], whatever else is listed. *)
Theorem over_long_tag_number_raises w repo major output line oid ref a b c :
  git_ls_remote_tags w repo = inr output ->
  In line (listing_lines output) ->
  PyStr.split 9 line = [oid; ref] ->
  tag_of_ref ref = lit "v" ++ a ++ lit "." ++ b ++ lit "." ++ c ->
  Spec.digits Unicode.is_ascii_digit a -> Spec.digits Unicode.is_ascii_digit b ->
  Spec.digits Unicode.is_ascii_digit c ->
  int_max_str_digits < Z.of_nat (length a)
  \/ int_max_str_digits < Z.of_nat (length b)
  \/ int_max_str_digits < Z.of_nat (length c) ->
  get_latest_tag w repo major = Raise ValueError.
Proof.
  intros Hls Hline Hsplit Htag Da Db Dc Hlong.
  apply (scan_lines_raised _ _ _ _ Hls).
  apply (scan_lines_bad_line _ line Hline).
  unfold scan_line. rewrite Hsplit. cbn [mbind result_bind unpack_second].
  rewrite Htag. now apply version_of_tag_over_long.
Qed.

Lemma over_long_tag_number_raises_witness :
  get_latest_tag
    (Examples.world None
       (fun _ => inr (Examples.three_tags
                      ++ Examples.ls_line Examples.oid1
                           (lit "refs/tags/" ++ Examples.long_tag))))
    (lit "https://github.com/frappe/erpnext") None
  = Raise ValueError.
Proof.
  apply (over_long_tag_number_raises
           (Examples.world None
              (fun _ => inr (Examples.three_tags
                             ++ Examples.ls_line Examples.oid1
                                  (lit "refs/tags/" ++ Examples.long_tag))))
           (lit "https://github.com/frappe/erpnext") None
           (Examples.three_tags
            ++ Examples.ls_line Examples.oid1
                 (lit "refs/tags/" ++ Examples.long_tag))
           (Examples.oid1 ++ [9] ++ lit "refs/tags/" ++ Examples.long_tag)
           Examples.oid1 (lit "refs/tags/" ++ Examples.long_tag)
           Examples.long_number [48] [48]).
  - reflexivity.
  - vm_compute. do 3 right. left. reflexivity.
  - vm_compute. reflexivity.
  - vm_compute. reflexivity.
  - split; [discriminate|vm_compute; reflexivity].
  - split; [discriminate|reflexivity].
  - split; [discriminate|reflexivity].
  - left. vm_compute. reflexivity.
Defined.

(** Property X15. The numbers of the tag that [get_latest_tag] returns
    are numbers that [int()] has read from at most 4300 digits, and their
    text is no longer than that: [str()], which refuses numbers of more
    digits, renders every one of them. *)
Theorem rendered_numbers_are_within_the_limit w repo major tag :
  get_latest_tag w repo major = Ok (Some tag) ->
  exists m,
    tag = lit "v" ++ Version.to_str m
    /\ Spec.three_part m
    /\ Forall (fun x => Z.of_nat (length (int_str x)) <= int_max_str_digits)
         (Version.release m).
Proof.
  intros (m & H3 & HL & ->)%get_latest_tag_some. exists m. auto.
Qed.

Lemma rendered_numbers_are_within_the_limit_witness :
  exists m,
    lit "v2.0.0" = lit "v" ++ Version.to_str m
    /\ Spec.three_part m
    /\ Forall (fun x => Z.of_nat (length (int_str x)) <= int_max_str_digits)
         (Version.release m).
Proof.
  apply (rendered_numbers_are_within_the_limit
           (Examples.all_up None UTF_8) (lit "https://github.com/frappe/crm") None).
  vm_compute. reflexivity.
Defined.

(** ** The listing as a set of lines *)

Lemma scan_lines_In lines tags t :
  scan_lines lines [] = Ok tags ->
  In t tags <-> exists line, In line lines /\ scan_line line = Ok (Some t).
Proof.
  revert tags. induction lines as [|line rest IH]; intros tags.
  - intros [= <-]. split; [easy|]. now intros (l & [] & _).
  - cbn [scan_lines]. destruct (scan_line line) as [found|x] eqn:E; [|discriminate].
    cbn [mbind result_bind]. rewrite scan_lines_acc.
    destruct (scan_lines rest []) as [more|x] eqn:Er; [|discriminate].
    intros [= <-]. rewrite in_app_iff, (IH more eq_refl). split.
    + intros [Hin|(l & Hl & Hs)].
      * exists line. split; [now left|].
        destruct found as [v|]; [|easy]. destruct Hin as [->|[]]. assumption.
      * exists l. split; [now right|assumption].
    + intros (l & [<-|Hl] & Hs).
      * left. rewrite E in Hs. injection Hs as ->. now left.
      * right. eauto.
Qed.

Lemma scan_lines_incl lines lines' tags' :
  incl lines lines' -> scan_lines lines' [] = Ok tags' ->
  exists tags, scan_lines lines [] = Ok tags /\ incl tags tags'.
Proof.
  intros Hincl H'.
  destruct (scan_lines_incl_ok _ _ _ Hincl H') as [tags E].
  exists tags. split; [assumption|]. intros t Ht.
  apply (scan_lines_In _ _ t E) in Ht as (l & Hl & Hs).
  apply (scan_lines_In _ _ t H'). eauto.
Qed.

Lemma three_part_eq m m' :
  Spec.three_part m -> Spec.three_part m' ->
  Spec.semver_le m m' -> Spec.semver_le m' m -> m = m'.
Proof.
  intros (x & y & z & Hr & _) (x' & y' & z' & Hr' & _).
  rewrite (version_eta m _ _ _ Hr), (version_eta m' _ _ _ Hr').
  unfold Spec.semver_le, Spec.semver_lt, Spec.semver_eq,
    Version.major, Version.minor, Version.micro. cbn.
  intros H1 H2. repeat f_equal; lia.
Qed.

Lemma major_matches_choice major (tags : list Version.t) :
  (exists t, In t tags /\ major_matches major t = true)
  \/ (forall t, In t tags -> major_matches major t = false).
Proof.
  destruct (existsb (major_matches major) tags) eqn:E.
  - left. now apply existsb_exists in E.
  - right. intros t Ht. apply not_true_is_false. intros Hm.
    assert (existsb (major_matches major) tags = true)
      by (apply existsb_exists; eauto).
    congruence.
Qed.

(** The choice depends on which versions are candidates, not on their
    order nor on how often each occurs. *)
Lemma latest_of_same_elements tags tags' major :
  Forall Spec.three_part tags -> Forall Spec.three_part tags' ->
  Spec.same_elements tags tags' ->
  latest_of tags major = latest_of tags' major.
Proof.
  intros H3 H3' Hsame.
  destruct tags as [|t0 ts].
  { destruct tags' as [|t' ts']; [reflexivity|].
    destruct (proj2 (Hsame t')); now left. }
  destruct tags' as [|t0' ts'].
  { destruct (proj1 (Hsame t0)); now left. }
  destruct (latest_of_spec (t0 :: ts) major) as (m & -> & Hin & Hsome & Hnone);
    [discriminate|assumption|].
  destruct (latest_of_spec (t0' :: ts') major) as (m' & -> & Hin' & Hsome' & Hnone');
    [discriminate|assumption|].
  rewrite List.Forall_forall in H3, H3'.
  replace m' with m; [reflexivity|].
  apply three_part_eq; auto.
  - destruct (major_matches_choice major (t0 :: ts)) as [(t & Ht & Hm)|Hno].
    + destruct Hsome as [Hmm _]; [eauto|].
      destruct Hsome' as [_ Hmax']; [exists t; split; [now apply Hsame|assumption]|].
      apply Hmax'; [now apply Hsame|assumption].
    + apply Hnone'; [|now apply Hsame].
      intros t Ht. apply Hno. now apply Hsame.
  - destruct (major_matches_choice major (t0 :: ts)) as [(t & Ht & Hm)|Hno].
    + destruct Hsome' as [Hmm' _]; [exists t; split; [now apply Hsame|assumption]|].
      destruct Hsome as [_ Hmax]; [eauto|].
      apply Hmax; [now apply Hsame|assumption].
    + apply Hnone; [assumption|now apply Hsame].
Qed.

(** Property X4. Two listings with the same lines, in whatever order and
    however often repeated, give the same answer, be it a tag, no tag or
    [ValueError]; so do two listings of records with the same candidates. *)
Theorem answer_depends_on_the_set_of_candidates
    w w' repo repo' major output output' :
  git_ls_remote_tags w repo = inr output ->
  git_ls_remote_tags w' repo' = inr output' ->
  (Spec.same_elements (listing_lines output) (listing_lines output') ->
   get_latest_tag w repo major = get_latest_tag w' repo' major)
  /\ (forall tags tags',
        scan_lines (listing_lines output) [] = Ok tags ->
        scan_lines (listing_lines output') [] = Ok tags' ->
        Spec.same_elements tags tags' ->
        get_latest_tag w repo major = get_latest_tag w' repo' major).
Proof.
  intros Hls Hls'.
  pose proof (get_latest_tag_cases w repo major) as Hc.
  pose proof (get_latest_tag_cases w' repo' major) as Hc'.
  rewrite Hls in Hc. rewrite Hls' in Hc'. split.
  - intros Hsame.
    destruct (scan_lines (listing_lines output) []) as [tags|x] eqn:E;
      destruct (scan_lines (listing_lines output') []) as [tags'|x'] eqn:E'.
    + destruct Hc as (-> & H3 & _), Hc' as (-> & H3' & _).
      apply latest_of_same_elements; try assumption.
      intros t. rewrite (scan_lines_In _ _ t E), (scan_lines_In _ _ t E').
      split; intros (l & Hl & Hs); exists l; (split; [now apply Hsame|assumption]).
    + destruct (scan_lines_incl_ok (listing_lines output')
                  (listing_lines output) tags) as [tags' Ht'];
        [intros l Hl; now apply Hsame|assumption|congruence].
    + destruct (scan_lines_incl_ok (listing_lines output)
                  (listing_lines output') tags') as [tags Ht];
        [intros l Hl; now apply Hsame|assumption|congruence].
    + congruence.
  - intros tags tags' E E' Hsame. rewrite E in Hc. rewrite E' in Hc'.
    destruct Hc as (-> & H3 & _), Hc' as (-> & H3' & _).
    now apply latest_of_same_elements.
Qed.

Lemma answer_depends_on_the_set_of_candidates_witness :
  get_latest_tag (Examples.all_up None UTF_8)
    (lit "https://github.com/frappe/hrms") (Some 1)
  = get_latest_tag
      (Examples.world None (fun _ => inr Examples.three_tags_shuffled))
      (lit "https://github.com/frappe/hrms") (Some 1).
Proof.
  apply (proj2 (answer_depends_on_the_set_of_candidates
                  (Examples.all_up None UTF_8)
                  (Examples.world None (fun _ => inr Examples.three_tags_shuffled))
                  (lit "https://github.com/frappe/hrms")
                  (lit "https://github.com/frappe/hrms") (Some 1)
                  Examples.three_tags Examples.three_tags_shuffled
                  eq_refl eq_refl)
           [Examples.v 1 2 3; Examples.v 1 10 0; Examples.v 2 0 0]
           [Examples.v 2 0 0; Examples.v 1 2 3; Examples.v 1 10 0;
            Examples.v 1 2 3]).
  - vm_compute. reflexivity.
  - vm_compute. reflexivity.
  - intros x. cbn. tauto.
Defined.

(** Property X5. A listing never resolves lower for holding more lines:
    without filter, the answer for a part of the lines of a listing that
    scans is no tag or a version that the answer for the whole listing does
    not fall below. *)
Theorem more_lines_never_lower w w' repo repo' output output' tags' :
  git_ls_remote_tags w repo = inr output ->
  git_ls_remote_tags w' repo' = inr output' ->
  incl (listing_lines output) (listing_lines output') ->
  scan_lines (listing_lines output') [] = Ok tags' ->
  get_latest_tag w repo None = Ok None
  \/ exists m m',
       get_latest_tag w repo None = Ok (Some (lit "v" ++ Version.to_str m))
       /\ get_latest_tag w' repo' None = Ok (Some (lit "v" ++ Version.to_str m'))
       /\ Spec.semver_le m m'.
Proof.
  intros Hls Hls' Hincl E'.
  destruct (scan_lines_incl _ _ _ Hincl E') as (tags & E & Htags).
  rewrite (get_latest_tag_after_loop _ _ _ _ _ Hls E).
  rewrite (get_latest_tag_after_loop _ _ _ _ _ Hls' E').
  destruct tags as [|t ts]; [now left|]. right.
  pose proof (scan_lines_three_part _ _ E) as H3.
  pose proof (scan_lines_three_part _ _ E') as H3'.
  assert (Hne' : tags' <> []).
  { intros ->. destruct (Htags t). now left. }
  destruct (latest_of_spec (t :: ts) None) as (m & -> & Hin & _);
    [discriminate|assumption|].
  destruct (latest_of_spec tags' None Hne' H3') as (m' & -> & Hin' & Hsome' & _).
  exists m, m'. split; [reflexivity|]. split; [reflexivity|].
  destruct Hsome' as [_ Hmax']; [exists m'; split; [assumption|reflexivity]|].
  apply Hmax'; [now apply Htags|reflexivity].
Qed.

Lemma more_lines_never_lower_witness :
  get_latest_tag
    (Examples.world None (fun _ => inr (Examples.ls_line Examples.oid1
                                          (lit "refs/tags/v1.2.3"))))
    (lit "https://github.com/frappe/lms") None = Ok None
  \/ exists m m',
       get_latest_tag
         (Examples.world None (fun _ => inr (Examples.ls_line Examples.oid1
                                               (lit "refs/tags/v1.2.3"))))
         (lit "https://github.com/frappe/lms") None
       = Ok (Some (lit "v" ++ Version.to_str m))
       /\ get_latest_tag (Examples.all_up None UTF_8)
            (lit "https://github.com/frappe/lms") None
          = Ok (Some (lit "v" ++ Version.to_str m'))
       /\ Spec.semver_le m m'.
Proof.
  apply (more_lines_never_lower _ _ _ _
           (Examples.ls_line Examples.oid1 (lit "refs/tags/v1.2.3"))
           Examples.three_tags
           [Examples.v 1 2 3; Examples.v 1 10 0; Examples.v 2 0 0]).
  - reflexivity.
  - reflexivity.
  - intros l Hl. vm_compute in Hl. destruct Hl as [<-|[]].
    vm_compute. left. reflexivity.
  - vm_compute. reflexivity.
Defined.

(** ** The major filter from the environment *)

Lemma many_to_the_end a s :
  Re.many a (Re.exec []) s = Some (PyStr.drop_while (Re.accepts a) s).
Proof.
  induction s as [|c s IH]; [reflexivity|].
  cbn [Re.many PyStr.drop_while]. destruct (Re.accepts a c); [|reflexivity].
  now rewrite IH.
Qed.

Lemma exec_digit_run s :
  Re.exec [Re.Plus Re.Digit] s
  = match s with
    | c :: s' =>
        if Unicode.isdecimal c
        then Some (PyStr.drop_while Unicode.isdecimal s') else None
    | [] => None
    end.
Proof.
  destruct s as [|c s]; [reflexivity|]. cbn [Re.exec Re.accepts].
  destruct (Unicode.isdecimal c); [|reflexivity].
  apply (many_to_the_end Re.Digit).
Qed.

Lemma search_digit_run_skip pre s :
  (forall c, In c pre -> Unicode.isdecimal c = false) ->
  Re.search [Re.Plus Re.Digit] (pre ++ s) = Re.search [Re.Plus Re.Digit] s.
Proof.
  induction pre as [|c pre IH]; intros Hpre; [reflexivity|].
  cbn [app Re.search]. rewrite exec_digit_run.
  rewrite (Hpre c) by now left. apply IH. intros d Hd. apply Hpre. now right.
Qed.

(** The first unbroken run of decimal digits is what [re.search] finds. *)
Lemma search_first_run pre ds rest :
  (forall c, In c pre -> Unicode.isdecimal c = false) ->
  Spec.digits Unicode.isdecimal ds ->
  match rest with c :: _ => Unicode.isdecimal c = false | [] => True end ->
  Re.search [Re.Plus Re.Digit] (pre ++ ds ++ rest) = Some ds.
Proof.
  intros Hpre [Hne Hds] Hrest.
  rewrite search_digit_run_skip by assumption.
  destruct ds as [|d ds]; [easy|]. cbn in Hds.
  apply andb_true_iff in Hds as [Hd Hds].
  cbn [app Re.search]. rewrite exec_digit_run, Hd.
  rewrite drop_while_app by assumption.
  replace (PyStr.drop_while Unicode.isdecimal rest) with rest
    by (destruct rest as [|c rest]; [reflexivity|];
        symmetry; now apply drop_while_cons_false).
  change (d :: ds ++ rest) with ((d :: ds) ++ rest).
  now rewrite take_without_suffix.
Qed.

Lemma search_none s :
  Re.search [Re.Plus Re.Digit] s = None
  <-> forall c, In c s -> Unicode.isdecimal c = false.
Proof.
  induction s as [|c s IH].
  - split; [easy|reflexivity].
  - cbn [Re.search]. rewrite exec_digit_run.
    destruct (Unicode.isdecimal c) eqn:E.
    + split; [discriminate|]. intros H. rewrite (H c) in E; [discriminate|now left].
    + rewrite IH. split.
      * intros H d [<-|Hd]; auto.
      * intros H d Hd. apply H. now right.
Qed.

(** Property X6. The filter is the number written by the first unbroken run
    of decimal digits of the variable, whatever stands before and after it,
    and it is never negative, when the run has at most 4300 digits; on a
    longer run [int()] raises [ValueError] and there is no filter at
    all. *)
Theorem major_is_the_first_digit_run pre ds rest :
  (forall c, In c pre -> Unicode.isdecimal c = false) ->
  Spec.digits Unicode.isdecimal ds ->
  match rest with c :: _ => Unicode.isdecimal c = false | [] => True end ->
  (Z.of_nat (length ds) <= int_max_str_digits ->
   major_of_env (pre ++ ds ++ rest) = Ok (Some (digits_value ds))
   /\ 0 <= digits_value ds)
  /\ (int_max_str_digits < Z.of_nat (length ds) ->
      major_of_env (pre ++ ds ++ rest) = Raise ValueError).
Proof.
  intros Hpre Hds Hrest. unfold major_of_env.
  rewrite (search_first_run pre ds rest Hpre Hds Hrest). split.
  - intros Hshort. rewrite (int_of_digits_short ds Hshort).
    split; [reflexivity|apply digits_value_nonneg].
  - intros Hlong. now rewrite (int_of_digits_long ds Hlong).
Qed.

Lemma major_is_the_first_digit_run_witness :
  (major_of_env (lit "version-" ++ lit "15" ++ lit ".2")
   = Ok (Some (digits_value (lit "15")))
   /\ 0 <= digits_value (lit "15"))
  /\ major_of_env (lit "version-" ++ Examples.long_number ++ lit ".2")
     = Raise ValueError.
Proof.
  split.
  - apply (major_is_the_first_digit_run (lit "version-") (lit "15") (lit ".2")).
    + intros c Hc. vm_compute in Hc.
      decompose [or] Hc; subst; (reflexivity || contradiction).
    + split; [discriminate|reflexivity].
    + reflexivity.
    + vm_compute. discriminate.
  - apply (major_is_the_first_digit_run
             (lit "version-") Examples.long_number (lit ".2")).
    + intros c Hc. vm_compute in Hc.
      decompose [or] Hc; subst; (reflexivity || contradiction).
    + split; [discriminate|vm_compute; reflexivity].
    + reflexivity.
    + vm_compute. reflexivity.
Defined.

(** Property X7. No filter is applied exactly when the variable holds no
    decimal digit, as when it is empty or not set. *)
Theorem no_digit_no_filter (env_version : str) :
  major_of_env env_version = Ok None
  <-> forall c, In c env_version -> Unicode.isdecimal c = false.
Proof.
  rewrite <- search_none. unfold major_of_env.
  destruct (Re.search [Re.Plus Re.Digit] env_version) as [ds|]; [|easy].
  destruct (int_of_digits_cases ds) as [[_ ->]|[_ ->]]; easy.
Qed.

(** ** Names that hold the prefix a second time *)

Lemma replace_no_start p s :
  (forall c, In c p -> c <> 114) ->
  PyStr.replace (lit "refs/tags/") [] (p ++ s)
  = p ++ PyStr.replace (lit "refs/tags/") [] s.
Proof.
  unfold PyStr.replace. induction p as [|c p IH]; intros Hp; [reflexivity|].
  cbn [app PyStr.replace_from].
  replace (PyStr.startswith (c :: p ++ s) (lit "refs/tags/")) with false.
  - f_equal. apply IH. intros d Hd. apply Hp. now right.
  - lit_compute. cbn [PyStr.startswith].
    destruct (Z.eqb_spec 114 c) as [Hc|]; [|reflexivity].
    exfalso. apply (Hp c); [now left|auto].
Qed.

(** Property X8. [replace] removes [refs/tags/] wherever it stands, so a tag
    whose name holds it again, after characters other than [r], is read as
    the name without it. *)
Theorem inner_prefix_is_removed_too p q :
  (forall c, In c p -> c <> 114) ->
  tag_of_ref (lit "refs/tags/" ++ p ++ lit "refs/tags/" ++ q)
  = tag_of_ref (lit "refs/tags/" ++ p ++ q).
Proof.
  intros Hp. unfold tag_of_ref.
  rewrite !replace_prefixed.
  rewrite (replace_no_start p (lit "refs/tags/" ++ q)) by assumption.
  rewrite (replace_no_start p q) by assumption.
  now rewrite replace_prefixed.
Qed.

Lemma inner_prefix_is_removed_too_witness :
  tag_of_ref (lit "refs/tags/" ++ lit "v" ++ lit "refs/tags/" ++ lit "1.2.3")
  = tag_of_ref (lit "refs/tags/" ++ lit "v" ++ lit "1.2.3").
Proof.
  apply (inner_prefix_is_removed_too (lit "v") (lit "1.2.3")).
  intros c [<-|[]]. discriminate.
Defined.

(** ** How a run ends and what it leaves behind *)








Lemma get_latest_tag_ext w w' repo major :
  git_ls_remote_tags w repo = git_ls_remote_tags w' repo ->
  get_latest_tag w repo major = get_latest_tag w' repo major.
Proof. intros H. unfold get_latest_tag, check_output. now rewrite H. Qed.

Lemma resolve_all_ext w w' major repos apps :
  (forall repo, In repo repos ->
     git_ls_remote_tags w repo = git_ls_remote_tags w' repo) ->
  resolve_all w major repos apps = resolve_all w' major repos apps.
Proof.
  revert apps. induction repos as [|repo rest IH]; intros apps H; [reflexivity|].
  cbn [resolve_all]. rewrite (get_latest_tag_ext w w' repo major) by (apply H; now left).
  destruct (get_latest_tag w' repo major); [|reflexivity]. cbn.
  apply IH. intros r Hr. apply H. now right.
Qed.

(** Property X11. A run asks [git] about the configured repositories and
    nothing else: surroundings that differ only in what other repositories
    would answer give the same run. *)
Theorem run_asks_only_the_configured_repositories (w w' : World)
    (fs : FileSystem) :
  Spec.agree_on_repos w w' -> main w fs = main w' fs.
Proof.
  intros (Henv & Henc & Hls). unfold main, run, write_text.
  rewrite <- Henv, <- Henc.
  destruct (major_of_env (default [] (FRAPPE_VERSION w))) as [major|y];
    [|reflexivity].
  now rewrite (resolve_all_ext w w' _ REPOS [] Hls).
Qed.

Lemma run_asks_only_the_configured_repositories_witness :
  main (Examples.all_up None UTF_8) Examples.empty_directory
  = main Examples.all_up_elsewhere_down Examples.empty_directory.
Proof.
  apply (run_asks_only_the_configured_repositories
           (Examples.all_up None UTF_8) Examples.all_up_elsewhere_down
           Examples.empty_directory).
  split; [reflexivity|]. split; [reflexivity|].
  intros repo Hin. vm_compute in Hin.
  decompose [or] Hin; subst; (reflexivity || contradiction).
Defined.

(** Property X12. Every [branch] of a manifest is [main] or a tag of the
    shape [v<digits>.<digits>.<digits>] in ASCII digits, and never empty. *)
Theorem branches_are_main_or_versions w major repos apps :
  resolve_all w major repos [] = Ok apps ->
  Forall (fun e => Spec.branch_shaped (branch e) /\ branch e <> []) apps.
Proof.
  intros H%resolve_all_ok.
  induction H as [|repo e repos apps (_ & tag & Htag & Hb) _ IH]; constructor;
    [|assumption].
  rewrite Hb. eapply tag_or_main_shaped, Htag.
Qed.

Lemma branches_are_main_or_versions_witness :
  Forall (fun e => Spec.branch_shaped (branch e) /\ branch e <> [])
    [{| git_url := lit "https://github.com/frappe/lms"; branch := lit "main" |}].
Proof.
  apply (branches_are_main_or_versions
           (Examples.world None (fun _ => inr Examples.no_release_tags)) None
           [lit "https://github.com/frappe/lms"]).
  vm_compute. reflexivity.
Defined.

(** ** White space around the listing *)

Lemma rstrip_ws_app_space s b :
  forallb Unicode.isspace b = true ->
  PyStr.rstrip_ws (s ++ b) = PyStr.rstrip_ws s.
Proof.
  intros Hb. unfold PyStr.rstrip_ws. rewrite rev_app_distr.
  rewrite drop_while_app; [reflexivity|].
  rewrite forallb_forall in Hb |- *. intros c Hc. apply Hb. now apply in_rev.
Qed.

Lemma strip_app_space s b :
  forallb Unicode.isspace b = true -> PyStr.strip (s ++ b) = PyStr.strip s.
Proof.
  intros Hb. unfold PyStr.strip, PyStr.lstrip_ws.
  induction s as [|c s IH].
  - cbn [app]. rewrite (drop_while_all _ b Hb). reflexivity.
  - cbn [app PyStr.drop_while]. destruct (Unicode.isspace c); [exact IH|].
    change (c :: s ++ b) with ((c :: s) ++ b). now apply rstrip_ws_app_space.
Qed.

(** Property X13. White space before the first record and after the last
    one, such as the line feed that ends the output, is not part of the
    listing. *)
Theorem surrounding_white_space_is_ignored w w' repo repo' major a output b :
  forallb Unicode.isspace a = true -> forallb Unicode.isspace b = true ->
  git_ls_remote_tags w repo = inr output ->
  git_ls_remote_tags w' repo' = inr (a ++ output ++ b) ->
  listing_lines (a ++ output ++ b) = listing_lines output
  /\ get_latest_tag w' repo' major = get_latest_tag w repo major.
Proof.
  intros Ha Hb Hls Hls'.
  assert (Hlines : listing_lines (a ++ output ++ b) = listing_lines output).
  { unfold listing_lines. f_equal. rewrite app_assoc, strip_app_space by assumption.
    unfold PyStr.strip, PyStr.lstrip_ws. now rewrite drop_while_app. }
  split; [assumption|].
  unfold get_latest_tag, check_output. rewrite Hls, Hls'. cbn [mbind result_bind].
  now rewrite Hlines.
Qed.

Lemma surrounding_white_space_is_ignored_witness :
  listing_lines ([10; 32] ++ Examples.three_tags ++ [13; 10; 9])
  = listing_lines Examples.three_tags
  /\ get_latest_tag
       (Examples.world None
          (fun _ => inr ([10; 32] ++ Examples.three_tags ++ [13; 10; 9])))
       (lit "https://github.com/frappe/crm") None
     = get_latest_tag (Examples.all_up None UTF_8)
         (lit "https://github.com/frappe/crm") None.
Proof.
  apply (surrounding_white_space_is_ignored
           (Examples.all_up None UTF_8)
           (Examples.world None
              (fun _ => inr ([10; 32] ++ Examples.three_tags ++ [13; 10; 9])))
           (lit "https://github.com/frappe/crm")
           (lit "https://github.com/frappe/crm") None
           [10; 32] Examples.three_tags [13; 10; 9]);
    reflexivity.
Defined.
